(** * vk-mass-sending-bot: a shallow embedding of [index.js]

    The bot gathers the members of a VK community, filters them through an
    allowlist and a blocklist kept in JSON files, and sends a templated
    message to everybody who is left through a rate-limited queue.

    The embedding follows [index.js] function by function.  State that the
    JavaScript keeps in module-level variables and on disk is threaded
    explicitly through a [World]; exceptions are a [Throw] result. *)

From Stdlib Require Import ZArith QArith Qcanon Lia Ascii String Decimal.
From stdpp Require Import base decidable option list gmap.

Set Default Proof Using "Type".

(** ** JavaScript strings

    A JavaScript string is a sequence of UTF-16 code units. *)

Definition jsstring : Type := list N.

Definition js (s : string) : jsstring :=
  (fun a => N_of_ascii a) <$> list_ascii_of_string s.

Fixpoint uint_digits (d : Decimal.uint) : jsstring :=
  match d with
  | Decimal.Nil => []
  | Decimal.D0 d => 48%N :: uint_digits d
  | Decimal.D1 d => 49%N :: uint_digits d
  | Decimal.D2 d => 50%N :: uint_digits d
  | Decimal.D3 d => 51%N :: uint_digits d
  | Decimal.D4 d => 52%N :: uint_digits d
  | Decimal.D5 d => 53%N :: uint_digits d
  | Decimal.D6 d => 54%N :: uint_digits d
  | Decimal.D7 d => 55%N :: uint_digits d
  | Decimal.D8 d => 56%N :: uint_digits d
  | Decimal.D9 d => 57%N :: uint_digits d
  end.

(** [String(n)] for an integer [n]: its decimal numeral, with a leading
    minus sign (code unit 45) when negative.  (JavaScript switches to
    exponent notation from 1e21 on; member ids are far below.) *)
Definition String_of_number (n : Z) : jsstring :=
  match Z.to_int n with
  | Decimal.Pos d => uint_digits d
  | Decimal.Neg d => 45%N :: uint_digits d
  end.

(** ** Data *)

(** An item of [groups.getMembers] requested with
    [fields: 'first_name,last_name']. *)
Record Member := {
  id : Z;
  first_name : option jsstring;
  last_name : option jsstring;
}.

(** What [JSON.parse(readFileSync(file))] can give for a list file. *)
Inductive FileBody :=
| Unreadable                          (* readFileSync or JSON.parse throws *)
| NotArray                            (* valid JSON, but no array *)
| ArrayOf (entries : list jsstring).  (* an array of id strings *)

Inductive ListFile :=
| Missing                             (* statSync throws *)
| Present (mtime : Z) (body : FileBody).

(** Errors that travel as JavaScript exceptions. *)
Record ErrParameters := { retry_after : option Q }.
Record ErrData := { parameters : option ErrParameters }.
Record ApiError := { code : option Z; data : option ErrData }.

Inductive Error :=
| InvalidUserIdFormat                 (* 'Invalid user ID format' *)
| FailedToSaveBlocklist               (* 'Failed to save blocklist' *)
| FailedToSaveAllowlist               (* 'Failed to save allowlist' *)
| FailedToGather (cause : Error)      (* `Failed to gather user IDs: ${err.message}` *)
| WriteFailed                         (* what a failing fs write throws *)
| FromApi (e : ApiError).             (* a rejected bot.api call *)

(** What the command handlers answer with [ctx.reply]. *)
Inductive Reply :=
| AccessDenied                        (* 'Access denied.' *)
| UpdatingRecipientList               (* 'Updating recipient list...' *)
| CouldNotReadTemplate                (* 'Could not read broadcast_template.txt file.' *)
| TemplateFileEmpty                   (* 'Template file is empty.' *)
| SendingTo (recipients : nat) (allowed blocked : option nat)
                                      (* 'Sending to N users ...' *)
| BroadcastComplete                   (* 'Broadcast complete.' *)
| BroadcastFailed (e : Error).        (* 'Broadcast failed: ' + err.message *)

(** Observable actions, in the order they happen. *)
Inductive Event :=
| EvGetMembers (group_id : jsstring) (offset count : Z)
                                      (* bot.api('groups.getMembers', ...) *)
| EvSend (peer_id : Z) (message : jsstring)
                                      (* bot.api('messages.send', ...) *)
| EvIsAllowed (user_id : Z)           (* 'messages.isMessagesFromGroupAllowed' *)
| EvDryRun (user_id : Z) (message : jsstring)
                                      (* console.log('[DRY RUN] Would send ...') *)
| EvProgress (processed total : nat)  (* console.log('Progress: ...') *)
| EvSendError (user_id : Z) (e : Error)
                                      (* console.error('Error sending to ...') *)
| EvSleep (ms : Q)                    (* setTimeout(r, ms), awaited *)
| EvReply (r : Reply)                 (* ctx.reply(...) *)
| EvSkipped (user_id : Z)             (* console.log('Skipped ...: messages not allowed') *)
| EvSummary (sent skipped : nat)      (* console.log('Total: S sent, K skipped') *)
| EvUnhandledRejection (user_id : Z) (e : Error).
                                      (* the promise of queue.add rejected,
                                         with nobody holding it *)

(** ** The world: files, module-level variables, the log *)

Record Disk := {
  blocklist_json : ListFile;
  allowlist_json : ListFile;
  broadcast_template_txt : option jsstring;  (* [None]: readFileSync throws *)
  peer_list_json : option (list Member);
  writable : bool;                           (* do file writes succeed *)
  clock : Z;                                 (* Date.now() *)
}.

(** The four module-level cache variables. *)
Record Cache := {
  blocklistCache : option (list jsstring);   (* [None] is JavaScript's null *)
  allowlistCache : option (list jsstring);
  blocklistLastModified : Z;
  allowlistLastModified : Z;
}.

(** The variables that the tasks of one [broadcast] run share. *)
Record Counters := {
  processed : nat;
  skipped : nat;
}.

Record World := {
  disk : Disk;
  cache : Cache;
  counters : Counters;
  calls : nat;             (* bot.api calls issued so far *)
  enqueued : nat;          (* queue.add calls so far *)
  trace : list Event;
}.

Definition with_disk (f : Disk -> Disk) (w : World) : World :=
  {| disk := f (disk w); cache := cache w; counters := counters w;
     calls := calls w; enqueued := enqueued w; trace := trace w |}.

Definition with_cache (f : Cache -> Cache) (w : World) : World :=
  {| disk := disk w; cache := f (cache w); counters := counters w;
     calls := calls w; enqueued := enqueued w; trace := trace w |}.

Definition with_counters (f : Counters -> Counters) (w : World) : World :=
  {| disk := disk w; cache := cache w; counters := f (counters w);
     calls := calls w; enqueued := enqueued w; trace := trace w |}.

Definition log (evs : list Event) (w : World) : World :=
  {| disk := disk w; cache := cache w; counters := counters w;
     calls := calls w; enqueued := enqueued w; trace := trace w ++ evs |}.

Definition count_call (w : World) : World :=
  {| disk := disk w; cache := cache w; counters := counters w;
     calls := S (calls w); enqueued := enqueued w; trace := trace w |}.

Definition count_enqueued (w : World) : World :=
  {| disk := disk w; cache := cache w; counters := counters w;
     calls := calls w; enqueued := S (enqueued w); trace := trace w |}.

Definition write_blocklist_json (l : list jsstring) (d : Disk) : Disk :=
  {| blocklist_json := Present (clock d) (ArrayOf l);
     allowlist_json := allowlist_json d;
     broadcast_template_txt := broadcast_template_txt d;
     peer_list_json := peer_list_json d;
     writable := writable d; clock := clock d |}.

Definition write_allowlist_json (l : list jsstring) (d : Disk) : Disk :=
  {| blocklist_json := blocklist_json d;
     allowlist_json := Present (clock d) (ArrayOf l);
     broadcast_template_txt := broadcast_template_txt d;
     peer_list_json := peer_list_json d;
     writable := writable d; clock := clock d |}.

Definition write_peer_list_json (l : list Member) (d : Disk) : Disk :=
  {| blocklist_json := blocklist_json d;
     allowlist_json := allowlist_json d;
     broadcast_template_txt := broadcast_template_txt d;
     peer_list_json := Some l;
     writable := writable d; clock := clock d |}.

Definition set_blocklistCache (l : list jsstring) (m : Z) (c : Cache) : Cache :=
  {| blocklistCache := Some l; allowlistCache := allowlistCache c;
     blocklistLastModified := m;
     allowlistLastModified := allowlistLastModified c |}.

Definition set_allowlistCache (l : list jsstring) (m : Z) (c : Cache) : Cache :=
  {| blocklistCache := blocklistCache c; allowlistCache := Some l;
     blocklistLastModified := blocklistLastModified c;
     allowlistLastModified := m |}.

(** ** A state and exception monad *)

Inductive Result (A : Type) :=
| Ret (a : A)
| Throw (e : Error)
| OutOfFuel.
Arguments Ret {A} a.
Arguments Throw {A} e.
Arguments OutOfFuel {A}.

Definition M (A : Type) : Type := World -> Result A * World.

Definition ret {A} (a : A) : M A := fun w => (Ret a, w).
Definition throw {A} (e : Error) : M A := fun w => (Throw e, w).
Definition bind {A B} (m : M A) (k : A -> M B) : M B := fun w =>
  match m w with
  | (Ret a, w') => k a w'
  | (Throw e, w') => (Throw e, w')
  | (OutOfFuel, w') => (OutOfFuel, w')
  end.
(** [try { m } catch (err) { h err }] *)
Definition try_catch {A} (m : M A) (h : Error -> M A) : M A := fun w =>
  match m w with
  | (Throw e, w') => h e w'
  | r => r
  end.
Definition modify (f : World -> World) : M unit := fun w => (Ret tt, f w).
Definition gets {A} (f : World -> A) : M A := fun w => (Ret (f w), w).

Definition lift {A} (f : World -> A * World) : M A := fun w =>
  let (a, w') := f w in (Ret a, w').

Notation "'do' x <- m ; k" := (bind m (fun x => k))
  (at level 10, x name, m at level 100, k at level 200).
Notation "'run' m ; k" := (bind m (fun _ => k))
  (at level 10, m at level 100, k at level 200).

(** ** Loading and saving the lists *)

(** What reading and parsing the file gives, with the modification time
    the cache records: [Array.isArray(parsed) ? parsed : []], and [[]]
    with time 0 from the [catch] branch. *)
Definition read_list (lastModified : Z) (body : FileBody) : list jsstring * Z :=
  match body with
  | Unreadable => ([], 0%Z)
  | NotArray => ([], lastModified)
  | ArrayOf parsed => (parsed, lastModified)
  end.

(** [loadBlocklist]: returns the cached array when the file is not newer
    than the cache, reads the file otherwise; every failure gives [[]].
    In all paths the array returned is the very object that
    [blocklistCache] holds afterwards. *)
Definition loadBlocklist (w : World) : list jsstring * World :=
  match blocklist_json (disk w) with
  | Present lastModified body =>
      match blocklistCache (cache w) with
      | Some cached =>
          if (lastModified <=? blocklistLastModified (cache w))%Z then (cached, w)
          else let (l, m) := read_list lastModified body in
               (l, with_cache (set_blocklistCache l m) w)
      | None =>
          let (l, m) := read_list lastModified body in
          (l, with_cache (set_blocklistCache l m) w)
      end
  | Missing => ([], with_cache (set_blocklistCache [] 0) w)
  end.

Definition loadAllowlist (w : World) : list jsstring * World :=
  match allowlist_json (disk w) with
  | Present lastModified body =>
      match allowlistCache (cache w) with
      | Some cached =>
          if (lastModified <=? allowlistLastModified (cache w))%Z then (cached, w)
          else let (l, m) := read_list lastModified body in
               (l, with_cache (set_allowlistCache l m) w)
      | None =>
          let (l, m) := read_list lastModified body in
          (l, with_cache (set_allowlistCache l m) w)
      end
  | Missing => ([], with_cache (set_allowlistCache [] 0) w)
  end.

(** [saveBlocklist]: the file written carries the time of the write. *)
Definition saveBlocklist (blocklist : list jsstring) : M unit := fun w =>
  if writable (disk w) then
    (Ret tt, with_cache (set_blocklistCache blocklist (clock (disk w)))
               (with_disk (write_blocklist_json blocklist) w))
  else (Throw FailedToSaveBlocklist, w).

Definition saveAllowlist (allowlist : list jsstring) : M unit := fun w =>
  if writable (disk w) then
    (Ret tt, with_cache (set_allowlistCache allowlist (clock (disk w)))
               (with_disk (write_allowlist_json allowlist) w))
  else (Throw FailedToSaveAllowlist, w).

(** ** The recipient filter *)

(** [filterUsers], as written: one pass with both tests. *)
Definition filterUsers (users : list Member) : M (list Member) :=
  do allowlist <- lift loadAllowlist;
  do blocklist <- lift loadBlocklist;
  let allowlistSet : gset jsstring := list_to_set allowlist in
  let blocklistSet : gset jsstring := list_to_set blocklist in
  ret (List.filter (fun user =>
         let userIdStr := String_of_number (id user) in
         if (0 <? length allowlist)%nat
            && negb (bool_decide (userIdStr ∈ allowlistSet))
         then false
         else negb (bool_decide (userIdStr ∈ blocklistSet))) users).

(** The filter in the words of its specification: allow-gating first,
    block removal on what is left. *)
Definition allow_gate (A : gset jsstring) (M0 : list Member) : list Member :=
  if decide (A = ∅) then M0
  else List.filter (fun m => bool_decide (String_of_number (id m) ∈ A)) M0.

Definition block_removal (B : gset jsstring) (M0 : list Member) : list Member :=
  List.filter (fun m => negb (bool_decide (String_of_number (id m) ∈ B))) M0.

Definition filter_spec (M0 : list Member) (A B : gset jsstring) : list Member :=
  block_removal B (allow_gate A M0).

(** ** JavaScript numbers, as far as the id check looks at them *)

Inductive JsNumber :=
| NaN
| Infinity (negative : bool)
| Finite (q : Q).

Definition isNaN (n : JsNumber) : bool :=
  match n with NaN => true | _ => false end.

(** [n > 0] *)
Definition gt0 (n : JsNumber) : bool :=
  match n with
  | NaN => false
  | Infinity negative => negb negative
  | Finite q => (0 <? Qnum q)%Z
  end.

(** [Number.isInteger(n)] *)
Definition Number_isInteger (n : JsNumber) : bool :=
  match n with
  | Finite q => (Qden (Qred q) =? 1)%positive
  | _ => false
  end.

(** The words of the specification: [n] is a positive integer. *)
Definition positive_integer (n : JsNumber) : Prop :=
  ∃ (q : Q) (k : Z), n = Finite q ∧ (0 < k)%Z ∧ q == inject_Z k.

(** [Number(s)] on strings of decimal digits, the ids that VK hands out.
    [Number] itself is a parameter of the development; this is an
    instance of it to run examples with. *)
Fixpoint digits_value (acc : Z) (s : jsstring) : option Z :=
  match s with
  | [] => Some acc
  | c :: s' =>
      if ((48 <=? c) && (c <=? 57))%N
      then digits_value (10 * acc + Z.of_N (c - 48)) s'
      else None
  end.

Definition Number_of_digits (s : jsstring) : JsNumber :=
  match s with
  | [] => Finite 0                     (* Number('') is 0 *)
  | _ => match digits_value 0 s with
         | Some z => Finite (inject_Z z)
         | None => NaN
         end
  end.

(** ** Pages of members, template fields, results of [broadcast] *)

Record Page := { count : Z; items : list Member }.

Record TemplateFields := {
  tf_first_name : jsstring;
  tf_last_name : jsstring;
  tf_id : Z;
}.

Record BroadcastOutcome := {
  outcome_processed : nat;
  outcome_sent : nat;
  outcome_skipped : nat;
}.

(** What a call of [broadcast] evaluates to. *)
Inductive JsValue :=
| Undefined
| OutcomeRecord (o : BroadcastOutcome).

(** [const count = 1000] of [gatherUserIds] *)
Definition page_size : Z := 1000.

(** [err.data?.parameters?.retry_after] *)
Definition retry_after_of (e : ApiError) : option Q :=
  d ← data e; p ← parameters d; retry_after p.

(** Truthiness of a number: every number but 0 (and NaN). *)
Definition truthy (q : Q) : bool := negb (Qnum q =? 0)%Z.

(** [err.code === 429 && err.data?.parameters?.retry_after], giving the
    hint when the test passes. *)
Definition throttled (err : Error) : option Q :=
  match err with
  | FromApi e =>
      match code e with
      | Some c =>
          if (c =? 429)%Z then
            match retry_after_of e with
            | Some q => if truthy q then Some q else None
            | None => None
            end
          else None
      | None => None
      end
  | _ => None
  end.

(** [String.prototype.trim]: white space and line terminators of
    ECMAScript, as UTF-16 code units. *)
Definition is_white_space (c : N) : bool :=
  ((9 <=? c) && (c <=? 13) || (c =? 32) || (c =? 160) || (c =? 5760)
   || (8192 <=? c) && (c <=? 8202) || (c =? 8232) || (c =? 8233)
   || (c =? 8239) || (c =? 8287) || (c =? 12288) || (c =? 65279))%N.

Fixpoint trimStart (s : jsstring) : jsstring :=
  match s with
  | c :: s' => if is_white_space c then trimStart s' else s
  | [] => []
  end.

Definition trim (s : jsstring) : jsstring :=
  reverse (trimStart (reverse (trimStart s))).

(** ** The bot *)

Section Bot.

(** The built-in [Number] applied to a string, the two settings read from
    the environment, the answers of the VK API and the renderer that
    [Handlebars.compile] returns.  An API answer may depend on everything
    that went before: [groups.getMembers] is asked with the number of
    calls issued so far, [messages.send] with the position of the task in
    the run and the attempt (0 the first send, 1 the retry). *)
Variable Number : jsstring -> JsNumber.
Variable GROUP_ID : jsstring.
Variable ADMIN_IDS : list Z.
Variable groups_getMembers : nat -> jsstring -> Z -> Z -> ApiError + Page.
Variable messages_send : nat -> nat -> Z -> jsstring -> option ApiError.
Variable Handlebars_compile : jsstring -> TemplateFields -> jsstring.

Definition isAdmin (userId : Z) : bool := bool_decide (userId ∈ ADMIN_IDS).

Definition isValidUserId (userId : jsstring) : bool :=
  let numericId := Number userId in
  negb (isNaN numericId) && gt0 numericId && Number_isInteger numericId.

(** [blocklist.push(userIdStr)] on the array that [loadBlocklist] returned:
    that array is the one in [blocklistCache], which sees the push. *)
Definition push_blocklist (userIdStr : jsstring) (c : Cache) : Cache :=
  match blocklistCache c with
  | Some l => set_blocklistCache (l ++ [userIdStr]) (blocklistLastModified c) c
  | None => c
  end.

Definition push_allowlist (userIdStr : jsstring) (c : Cache) : Cache :=
  match allowlistCache c with
  | Some l => set_allowlistCache (l ++ [userIdStr]) (allowlistLastModified c) c
  | None => c
  end.

(** The handlers pass a word of the command text: [String(userId)] is
    [userId] itself. *)
Definition addToBlocklist (userId : jsstring) : M bool :=
  if negb (isValidUserId userId) then throw InvalidUserIdFormat
  else
    do blocklist <- lift loadBlocklist;
    let userIdStr := userId in
    if negb (bool_decide (userIdStr ∈ blocklist)) then
      run modify (with_cache (push_blocklist userIdStr));
      run saveBlocklist (blocklist ++ [userIdStr]);
      ret true
    else ret false.

Definition addToAllowlist (userId : jsstring) : M bool :=
  if negb (isValidUserId userId) then throw InvalidUserIdFormat
  else
    do allowlist <- lift loadAllowlist;
    let userIdStr := userId in
    if negb (bool_decide (userIdStr ∈ allowlist)) then
      run modify (with_cache (push_allowlist userIdStr));
      run saveAllowlist (allowlist ++ [userIdStr]);
      ret true
    else ret false.

(** *** Member enumeration *)

(** [queue.add(() => bot.api('groups.getMembers', {...}))], awaited. *)
Definition getMembers (group_id : jsstring) (offset count : Z) : M Page := fun w =>
  let w' := count_call (count_enqueued (log [EvGetMembers group_id offset count] w)) in
  match groups_getMembers (calls w) group_id offset count with
  | inl e => (Throw (FromApi e), w')
  | inr data => (Ret data, w')
  end.

(** [promises.writeFile('./peer_list.json', ...)] *)
Definition writeFile_peer_list (members : list Member) : M unit := fun w =>
  if writable (disk w) then (Ret tt, with_disk (write_peer_list_json members) w)
  else (Throw WriteFailed, w).

(** The [while (true)] loop; [total] is [None] while it is null. *)
Fixpoint gather_loop (fuel : nat) (group_id : jsstring) (members : list Member)
    (offset : Z) (total : option Z) : M (list Member) :=
  match fuel with
  | O => fun w => (OutOfFuel, w)
  | S fuel' =>
      do data <- getMembers group_id offset page_size;
      let total := match total with None => count data | Some t => t end in
      let members := members ++ items data in
      let offset := (offset + page_size)%Z in
      if (total <=? offset)%Z then ret members
      else gather_loop fuel' group_id members offset (Some total)
  end.

Definition gatherUserIds (fuel : nat) (group_id : jsstring) : M (list Member) :=
  try_catch
    (do members <- gather_loop fuel group_id [] 0 None;
     run writeFile_peer_list members;
     ret members)
    (fun err => throw (FailedToGather err)).

(** *** Broadcast *)

(** [bot.api('messages.send', {peer_id, message: text, ...})] *)
Definition sendMessage (task attempt : nat) (peer_id : Z) (text : jsstring) : M unit :=
  fun w =>
  let w' := count_call (log [EvSend peer_id text] w) in
  match messages_send task attempt peer_id text with
  | Some e => (Throw (FromApi e), w')
  | None => (Ret tt, w')
  end.

(** [userObjects.filter(user => loadAllowlist().includes(String(user.id)))],
    which loads the list once per user. *)
Fixpoint allowedUsers (users : list Member) : M (list Member) :=
  match users with
  | [] => ret []
  | user :: rest =>
      do allowlist <- lift loadAllowlist;
      do allowed <- allowedUsers rest;
      ret (if bool_decide (String_of_number (id user) ∈ allowlist)
           then user :: allowed else allowed)
  end.

Definition set_processed (n : nat) (c : Counters) : Counters :=
  {| processed := n; skipped := skipped c |}.

(** The function handed to [queue.add] for one user. *)
Definition send_task (dryRun : bool) (total : nat) (task : nat) (user : Member)
    (personalizedMessage : jsstring) : M unit :=
  try_catch
    (run (if dryRun then modify (log [EvDryRun (id user) personalizedMessage])
          else sendMessage task 0 (id user) personalizedMessage);
     run modify (with_counters (fun c => set_processed (S (processed c)) c));
     do processed <- gets (fun w => processed (counters w));
     if (processed mod 10 =? 0)%nat || (processed =? total)%nat
     then modify (log [EvProgress processed total])
     else ret tt)
    (fun err =>
     run modify (log [EvSendError (id user) err]);
     match throttled err with
     | Some retry_after =>
         run modify (log [EvSleep (retry_after * 1000)]);
         if negb dryRun
         then sendMessage task 1 (id user) personalizedMessage
         else ret tt
     | None => ret tt
     end).

(** The [for (const user of filteredUsers)] loop: renders the message and
    queues one task per user. *)
Fixpoint enqueue_tasks (template : TemplateFields -> jsstring) (dryRun : bool)
    (total : nat) (task : nat) (users : list Member) : M (list (Z * M unit)) :=
  match users with
  | [] => ret []
  | user :: rest =>
      let personalizedMessage :=
        template {| tf_first_name := default [] (first_name user);
                    tf_last_name := default [] (last_name user);
                    tf_id := id user |} in
      run modify count_enqueued;
      do tasks <- enqueue_tasks template dryRun total (S task) rest;
      ret ((id user, send_task dryRun total task user personalizedMessage) :: tasks)
  end.

(** [await queue.onIdle()]: the queue starts every task it was given, in
    the order they came, and is idle when all have settled.  A task that
    rejects settles the promise [queue.add] returned, which [broadcast]
    dropped: the rejection is recorded as unhandled and the queue goes on
    (what the runtime does with an unhandled rejection is not modelled).
    The tasks are run here one after the other; in the program the sends
    of different tasks overlap, which changes the order of the events of
    different tasks, but neither the events of one task nor the counters. *)
Fixpoint onIdle (tasks : list (Z * M unit)) : M unit :=
  match tasks with
  | [] => ret tt
  | (user_id, task) :: rest =>
      run try_catch task
            (fun err => modify (log [EvUnhandledRejection user_id err]));
      onIdle rest
  end.

Definition broadcast (messageTemplate : jsstring) (userObjects : list Member)
    (dryRun : bool) : M JsValue :=
  try_catch
    (let template := Handlebars_compile messageTemplate in
     let originalCount := length userObjects in
     do filteredUsers <- filterUsers userObjects;
     let filteredCount := (originalCount - length filteredUsers)%nat in
     run (if (0 <? filteredCount)%nat then
            do allowlist <- lift loadAllowlist;
            if (0 <? length allowlist)%nat
            then do _ <- allowedUsers userObjects; ret tt
            else ret tt
          else ret tt);
     run modify (with_counters (set_processed 0));
     let total := length filteredUsers in
     do tasks <- enqueue_tasks template dryRun total 0 filteredUsers;
     run onIdle tasks;
     ret Undefined)
    (fun err => throw err).

(** *** The [/broadcast] command *)

Definition reply (r : Reply) : M unit := modify (log [EvReply r]).

Definition broadcast_command (fuel : nat) (from_id : Z) : M unit :=
  if negb (isAdmin from_id) then reply AccessDenied
  else
    run reply UpdatingRecipientList;
    try_catch
      (do users <- gatherUserIds fuel GROUP_ID;
       do filteredUsers <- filterUsers users;
       do allowlist <- lift loadAllowlist;
       let allowlistActive := (0 <? length allowlist)%nat in
       do content <- gets (fun w => broadcast_template_txt (disk w));
       match content with
       | None => reply CouldNotReadTemplate
       | Some text =>
           let templateContent := trim text in
           match templateContent with
           | [] => reply TemplateFileEmpty
           | _ :: _ =>
               do statusMessage <-
                 (if allowlistActive then
                    do allowed <- allowedUsers users;
                    ret (SendingTo (length filteredUsers) (Some (length allowed))
                           (Some (length allowed - length filteredUsers)%nat))
                  else
                    let blockedCount := (length users - length filteredUsers)%nat in
                    ret (SendingTo (length filteredUsers) None
                           (if (0 <? blockedCount)%nat then Some blockedCount else None)));
               run reply statusMessage;
               do _ <- broadcast templateContent users false;
               reply BroadcastComplete
           end
       end)
      (fun err => reply (BroadcastFailed err)).

End Bot.

(** ** The variant with a permission check

    One of the other versions of the bot in the repository asks
    [messages.isMessagesFromGroupAllowed] before each live send and keeps a
    second counter, [skipped].  Its [sendBroadcast] is the [broadcast] of
    that version. *)

Module WithPermissionCheck.
Section Bot.

Variable is_allowed : nat -> Z -> ApiError + Z.
Variable messages_send : nat -> nat -> Z -> jsstring -> option ApiError.
Variable Handlebars_compile : jsstring -> TemplateFields -> jsstring.

(** [loadList(file, key)]: as [loadBlocklist] above, but the [catch]
    branch leaves [lastModified] alone. *)
Definition loadBlocklist (w : World) : list jsstring * World :=
  let keep := blocklistLastModified (cache w) in
  match blocklist_json (disk w) with
  | Present lastModified body =>
      let fresh :=
        match blocklistCache (cache w) with
        | Some _ => (lastModified <=? keep)%Z
        | None => false
        end in
      match blocklistCache (cache w), fresh, body with
      | Some cached, true, _ => (cached, w)
      | _, _, Unreadable => ([], with_cache (set_blocklistCache [] keep) w)
      | _, _, NotArray => ([], with_cache (set_blocklistCache [] lastModified) w)
      | _, _, ArrayOf l => (l, with_cache (set_blocklistCache l lastModified) w)
      end
  | Missing => ([], with_cache (set_blocklistCache [] keep) w)
  end.

Definition loadAllowlist (w : World) : list jsstring * World :=
  let keep := allowlistLastModified (cache w) in
  match allowlist_json (disk w) with
  | Present lastModified body =>
      let fresh :=
        match allowlistCache (cache w) with
        | Some _ => (lastModified <=? keep)%Z
        | None => false
        end in
      match allowlistCache (cache w), fresh, body with
      | Some cached, true, _ => (cached, w)
      | _, _, Unreadable => ([], with_cache (set_allowlistCache [] keep) w)
      | _, _, NotArray => ([], with_cache (set_allowlistCache [] lastModified) w)
      | _, _, ArrayOf l => (l, with_cache (set_allowlistCache l lastModified) w)
      end
  | Missing => ([], with_cache (set_allowlistCache [] keep) w)
  end.

Definition filterUsers (users : list Member) : M (list Member) :=
  do allowlist <- lift loadAllowlist;
  do blocklist0 <- lift loadBlocklist;
  let blocklist : gset jsstring := list_to_set blocklist0 in
  let allowSet : gset jsstring := list_to_set allowlist in
  ret (List.filter (fun user =>
         let id := String_of_number (id user) in
         ((length allowlist =? 0)%nat || bool_decide (id ∈ allowSet))
         && negb (bool_decide (id ∈ blocklist))) users).

(** [canSendMessage]: [response.is_allowed === 1], and [false] when the
    call fails. *)
Definition canSendMessage (task : nat) (userId : Z) : M bool := fun w =>
  let w' := count_call (log [EvIsAllowed userId] w) in
  match is_allowed task userId with
  | inr r => (Ret (r =? 1)%Z, w')
  | inl _ => (Ret false, w')
  end.

Definition sendMessage (task attempt : nat) (peer_id : Z) (text : jsstring) : M unit :=
  fun w =>
  let w' := count_call (log [EvSend peer_id text] w) in
  match messages_send task attempt peer_id text with
  | Some e => (Throw (FromApi e), w')
  | None => (Ret tt, w')
  end.

Definition incr_processed (c : Counters) : Counters :=
  {| processed := S (processed c); skipped := skipped c |}.

Definition incr_skipped (c : Counters) : Counters :=
  {| processed := processed c; skipped := S (skipped c) |}.

(** [processed++] followed by the progress line every tenth time and at
    the end. *)
Definition count_processed (total : nat) : M unit :=
  run modify (with_counters incr_processed);
  do processed <- gets (fun w => processed (counters w));
  if (processed mod 10 =? 0)%nat || (processed =? total)%nat
  then modify (log [EvProgress processed total])
  else ret tt.

Definition send_task (dryRun : bool) (total : nat) (task : nat) (user : Member)
    (personalizedMessage : jsstring) : M unit :=
  try_catch
    (do returned <-
       (if negb dryRun then
          do canSend <- canSendMessage task (id user);
          if negb canSend then
            run modify (with_counters incr_skipped);
            run modify (log [EvSkipped (id user)]);
            run count_processed total;
            ret true
          else ret false
        else ret false);
     if returned : bool then ret tt
     else
       run (if dryRun then modify (log [EvDryRun (id user) personalizedMessage])
            else sendMessage task 0 (id user) personalizedMessage);
       count_processed total)
    (fun err =>
     run modify (log [EvSendError (id user) err]);
     run modify (with_counters incr_processed);
     match throttled err with
     | Some retry_after =>
         if negb dryRun then
           run modify (log [EvSleep (retry_after * 1000)]);
           sendMessage task 1 (id user) personalizedMessage
         else ret tt
     | None => ret tt
     end).

Fixpoint enqueue_tasks (template : TemplateFields -> jsstring) (dryRun : bool)
    (total : nat) (task : nat) (users : list Member) : M (list (Z * M unit)) :=
  match users with
  | [] => ret []
  | user :: rest =>
      let personalizedMessage :=
        template {| tf_first_name := default [] (first_name user);
                    tf_last_name := default [] (last_name user);
                    tf_id := id user |} in
      run modify count_enqueued;
      do tasks <- enqueue_tasks template dryRun total (S task) rest;
      ret ((id user, send_task dryRun total task user personalizedMessage) :: tasks)
  end.

Definition sendBroadcast (messageTemplate : jsstring) (userObjects : list Member)
    (dryRun : bool) : M JsValue :=
  let template := Handlebars_compile messageTemplate in
  do filteredUsers <- filterUsers userObjects;
  let filteredCount := (length userObjects - length filteredUsers)%nat in
  run (if (0 <? filteredCount)%nat
       then do _ <- lift loadAllowlist; ret tt
       else ret tt);
  run modify (with_counters (fun _ => {| processed := 0; skipped := 0 |}));
  let total := length filteredUsers in
  do tasks <- enqueue_tasks template dryRun total 0 filteredUsers;
  run onIdle tasks;
  do c <- gets counters;
  run (if negb dryRun && (0 <? skipped c)%nat
       then modify (log [EvSummary (processed c - skipped c) (skipped c)])
       else ret tt);
  ret Undefined.

End Bot.
End WithPermissionCheck.

(** ** Vocabulary of the statements *)

(** The number of pages an enumeration with first total [total] asks for:
    the least [k >= 1] with [total <= 1000 * k]. *)
Definition pages_needed (total : Z) : nat :=
  Z.to_nat (Z.max 1 ((total + (page_size - 1)) / page_size)).

(** The requests for pages [j], [j+1], ..., [j+k-1] of a group. *)
Definition requested (group_id : jsstring) (j k : nat) : list Event :=
  (fun i => EvGetMembers group_id (page_size * Z.of_nat i) page_size) <$> seq j k.

(** The world after [k] more API calls enqueued through the queue that
    logged [evs]. *)
Definition after_calls (k : nat) (evs : list Event) (w : World) : World :=
  {| disk := disk w; cache := cache w; counters := counters w;
     calls := calls w + k; enqueued := enqueued w + k;
     trace := trace w ++ evs |}.

(** A world with the two list files as given, nothing cached, nothing
    logged. *)
Definition world_with (allow block : ListFile) (template : option jsstring)
    (can_write : bool) : World :=
  {| disk := {| blocklist_json := block; allowlist_json := allow;
                broadcast_template_txt := template;
                peer_list_json := None; writable := can_write; clock := 1 |};
     cache := {| blocklistCache := None; allowlistCache := None;
                 blocklistLastModified := 0; allowlistLastModified := 0 |};
     counters := {| processed := 0; skipped := 0 |};
     calls := 0; enqueued := 0; trace := [] |}.

(** Members with ids [n], [n-1], ..., 1 reversed: [members_upto n] is the
    list of members 1 to [n], without names. *)
Definition members_upto (n : nat) : list Member :=
  (fun i => {| id := Z.of_nat i; first_name := None; last_name := None |})
    <$> seq 1 n.

(** The fields [broadcast] hands to the template for a user. *)
Definition fields_of (user : Member) : TemplateFields :=
  {| tf_first_name := default [] (first_name user);
     tf_last_name := default [] (last_name user);
     tf_id := id user |}.

(** The tasks that the loop of [broadcast] queues for [users], the first
    of them being task number [task] of the run. *)
Fixpoint tasks_of (messages_send : nat -> nat -> Z -> jsstring -> option ApiError)
    (template : TemplateFields -> jsstring) (dryRun : bool) (total task : nat)
    (users : list Member) : list (Z * M unit) :=
  match users with
  | [] => []
  | user :: rest =>
      (id user, send_task messages_send dryRun total task user (template (fields_of user)))
      :: tasks_of messages_send template dryRun total (S task) rest
  end.

Definition is_dry_run (ev : Event) : bool :=
  match ev with EvDryRun _ _ => true | _ => false end.

Definition is_send (ev : Event) : bool :=
  match ev with EvSend _ _ => true | _ => false end.

(** Events that touch neither the API nor the timer. *)
Definition is_quiet (ev : Event) : bool :=
  match ev with EvDryRun _ _ | EvProgress _ _ => true | _ => false end.

(** Two worlds that differ at most in the cache variables. *)
Definition same_but_cache (w w' : World) : Prop :=
  disk w' = disk w ∧ counters w' = counters w ∧ calls w' = calls w
  ∧ enqueued w' = enqueued w ∧ trace w' = trace w.

(** The world in which the first task of a run starts: [processed] is 0
    and [n] tasks have been enqueued. *)
Definition run_start (n : nat) (w : World) : World :=
  {| disk := disk w; cache := cache w; counters := set_processed 0 (counters w);
     calls := calls w; enqueued := enqueued w + n; trace := trace w |}.

(** ** Sample inputs *)

(** Every send succeeds. *)
Definition send_ok : nat -> nat -> Z -> jsstring -> option ApiError :=
  fun _ _ _ _ => None.



(** Everybody allows messages from the group, except [denied]. *)
Definition deny_only (denied : Z) : nat -> Z -> ApiError + Z :=
  fun _ user_id => inr (if (user_id =? denied)%Z then 0%Z else 1%Z).

(** A template without placeholders renders as itself. *)
Definition plain_template : jsstring -> TemplateFields -> jsstring :=
  fun template _ => template.

(** A provider whose first page reports 2500 members and whose later
    pages report 7; each page carries one member. *)
Definition changing_provider : nat -> jsstring -> Z -> Z -> ApiError + Page :=
  fun call _ _ _ =>
    inr {| count := match call with O => 2500%Z | S _ => 7%Z end;
           items := [ {| id := Z.of_nat (S call); first_name := None;
                         last_name := None |} ] |}.

(** The reference scenario: an empty allowlist, the blocklist ["5"]. *)
Definition reference_world : World :=
  world_with (Present 1 (ArrayOf [])) (Present 1 (ArrayOf [js "5"]))
    (Some (js "Hello")) true.

(** ** The rest of [index.js] *)

(** [generateRandomId]: [peer_id * 100000 + (Date.now() % 100000)].  The
    remainder of JavaScript takes the sign of the dividend, as [Z.rem]. *)
Definition generateRandomId (peer_id now : Z) : Z :=
  (peer_id * 100000 + Z.rem now 100000)%Z.

(** [removeFromBlocklist]: filters into a new array and tells from the
    lengths whether anything went. *)
Definition removeFromBlocklist (userId : jsstring) : M bool :=
  do blocklist <- lift loadBlocklist;
  let userIdStr := userId in
  let initialLength := length blocklist in
  let filteredBlocklist :=
    List.filter (fun id => negb (bool_decide (id = userIdStr))) blocklist in
  if (length filteredBlocklist <? initialLength)%nat then
    run saveBlocklist filteredBlocklist;
    ret true
  else ret false.

Definition removeFromAllowlist (userId : jsstring) : M bool :=
  do allowlist <- lift loadAllowlist;
  let userIdStr := userId in
  let initialLength := length allowlist in
  let filteredAllowlist :=
    List.filter (fun id => negb (bool_decide (id = userIdStr))) allowlist in
  if (length filteredAllowlist <? initialLength)%nat then
    run saveAllowlist filteredAllowlist;
    ret true
  else ret false.

(** [s.split(sep)] for a separator of one code unit. *)
Fixpoint split_on (sep : N) (s : jsstring) : list jsstring :=
  match s with
  | [] => [[]]
  | c :: s' =>
      if (c =? sep)%N then [] :: split_on sep s'
      else match split_on sep s' with
           | piece :: pieces => (c :: piece) :: pieces
           | [] => [[c]]
           end
  end.

(** What the other command handlers answer with [ctx.reply]. *)
Inductive Answer :=
| Denied                              (* 'Access denied.' *)
| GatheringIds                        (* 'Gathering community member IDs...' *)
| Gathered (n : nat)                  (* `Gathered ${members.length} user IDs.` *)
| GatherFailed                        (* 'Failed to gather member IDs.' *)
| RunningTest                         (* 'Running test broadcast (dry run)...' *)
| NoTemplate                          (* 'Could not read broadcast_template.txt file.' *)
| EmptyTemplate                       (* 'Template file is empty.' *)
| TestingWith (recipients : nat) (allowed blocked : option nat)
                                      (* 'Testing with N users ...' *)
| DryRunCompleted                     (* 'Dry run completed (no real messages sent).' *)
| DryRunFailed (e : Error)            (* 'Dry run failed: ' + err.message *)
| UsageBlockUser                      (* 'Usage: /block_user <user_id>' *)
| UsageUnblockUser
| UsageAllowUser
| UsageUnallowUser
| AddedToBlocklist (userId : jsstring)
| AlreadyInBlocklist (userId : jsstring)
| RemovedFromBlocklist (userId : jsstring)
| NotInBlocklist (userId : jsstring)
| AddedToAllowlist (userId : jsstring)
| AlreadyInAllowlist (userId : jsstring)
| RemovedFromAllowlist (userId : jsstring)
| NotInAllowlist (userId : jsstring)
| ErrorReply (e : Error)              (* `Error: ${err.message}` *)
| BlocklistEmpty                      (* 'Blocklist is empty.' *)
| BlockedUsers (n : nat) (lines : list (nat * jsstring))
                                      (* `Blocked users (${n}):` and the numbered ids *)
| BlocklistCleared                    (* 'Blocklist cleared.' *)
| AllowlistEmpty
| AllowedUsers (n : nat) (lines : list (nat * jsstring))
| AllowlistCleared.

Section Commands.

Variable Number : jsstring -> JsNumber.
Variable GROUP_ID : jsstring.
Variable ADMIN_IDS : list Z.
Variable groups_getMembers : nat -> jsstring -> Z -> Z -> ApiError + Page.
Variable messages_send : nat -> nat -> Z -> jsstring -> option ApiError.
Variable Handlebars_compile : jsstring -> TemplateFields -> jsstring.

(** [ctx.message.text.split(' ').slice(1)] *)
Definition command_args (text : jsstring) : list jsstring :=
  drop 1 (split_on 32 text).

(** The handlers below return what they reply, in order. *)

Definition gather_ids_command (fuel : nat) (from_id : Z) : M (list Answer) :=
  if negb (isAdmin ADMIN_IDS from_id) then ret [Denied]
  else
    do answers <-
      try_catch
        (do members <- gatherUserIds groups_getMembers fuel GROUP_ID;
         ret [Gathered (length members)])
        (fun err => ret [GatherFailed]);
    ret (GatheringIds :: answers).

Definition test_broadcast_command (fuel : nat) (from_id : Z) : M (list Answer) :=
  if negb (isAdmin ADMIN_IDS from_id) then ret [Denied]
  else
    do answers <-
      try_catch
        (do users <- gatherUserIds groups_getMembers fuel GROUP_ID;
         do filteredUsers <- filterUsers users;
         do allowlist <- lift loadAllowlist;
         let allowlistActive := (0 <? length allowlist)%nat in
         do content <- gets (fun w => broadcast_template_txt (disk w));
         match content with
         | None => ret [NoTemplate]
         | Some text =>
             let templateContent := trim text in
             match templateContent with
             | [] => ret [EmptyTemplate]
             | _ :: _ =>
                 do status <-
                   (if allowlistActive then
                      do allowed <- allowedUsers users;
                      ret [TestingWith (length filteredUsers) (Some (length allowed))
                             (Some (length allowed - length filteredUsers)%nat)]
                    else
                      let blockedCount := (length users - length filteredUsers)%nat in
                      ret (if (0 <? blockedCount)%nat
                           then [TestingWith (length filteredUsers) None (Some blockedCount)]
                           else []));
                 do _ <- broadcast messages_send Handlebars_compile templateContent users true;
                 ret (status ++ [DryRunCompleted])
             end
         end)
        (fun err => ret [DryRunFailed err]);
    ret (RunningTest :: answers).

Definition block_user_command (from_id : Z) (text : jsstring) : M Answer :=
  if negb (isAdmin ADMIN_IDS from_id) then ret Denied
  else
    match command_args text with
    | [] => ret UsageBlockUser
    | userId :: _ =>
        try_catch
          (do added <- addToBlocklist Number userId;
           ret (if added : bool then AddedToBlocklist userId
                else AlreadyInBlocklist userId))
          (fun err => ret (ErrorReply err))
    end.

Definition unblock_user_command (from_id : Z) (text : jsstring) : M Answer :=
  if negb (isAdmin ADMIN_IDS from_id) then ret Denied
  else
    match command_args text with
    | [] => ret UsageUnblockUser
    | userId :: _ =>
        try_catch
          (do removed <- removeFromBlocklist userId;
           ret (if removed : bool then RemovedFromBlocklist userId
                else NotInBlocklist userId))
          (fun err => ret (ErrorReply err))
    end.

Definition show_blocklist_command (from_id : Z) : M Answer :=
  if negb (isAdmin ADMIN_IDS from_id) then ret Denied
  else
    do blocklist <- lift loadBlocklist;
    if (length blocklist =? 0)%nat then ret BlocklistEmpty
    else ret (BlockedUsers (length blocklist)
                (imap (fun index userId => (S index, userId)) blocklist)).

(** [saveBlocklist([])] is not inside a [try]: a failing write leaves the
    handler by the exception, before the reply. *)
Definition clear_blocklist_command (from_id : Z) : M Answer :=
  if negb (isAdmin ADMIN_IDS from_id) then ret Denied
  else
    run saveBlocklist [];
    ret BlocklistCleared.

Definition allow_user_command (from_id : Z) (text : jsstring) : M Answer :=
  if negb (isAdmin ADMIN_IDS from_id) then ret Denied
  else
    match command_args text with
    | [] => ret UsageAllowUser
    | userId :: _ =>
        try_catch
          (do added <- addToAllowlist Number userId;
           ret (if added : bool then AddedToAllowlist userId
                else AlreadyInAllowlist userId))
          (fun err => ret (ErrorReply err))
    end.

Definition unallow_user_command (from_id : Z) (text : jsstring) : M Answer :=
  if negb (isAdmin ADMIN_IDS from_id) then ret Denied
  else
    match command_args text with
    | [] => ret UsageUnallowUser
    | userId :: _ =>
        try_catch
          (do removed <- removeFromAllowlist userId;
           ret (if removed : bool then RemovedFromAllowlist userId
                else NotInAllowlist userId))
          (fun err => ret (ErrorReply err))
    end.

Definition show_allowlist_command (from_id : Z) : M Answer :=
  if negb (isAdmin ADMIN_IDS from_id) then ret Denied
  else
    do allowlist <- lift loadAllowlist;
    if (length allowlist =? 0)%nat then ret AllowlistEmpty
    else ret (AllowedUsers (length allowlist)
                (imap (fun index userId => (S index, userId)) allowlist)).

Definition clear_allowlist_command (from_id : Z) : M Answer :=
  if negb (isAdmin ADMIN_IDS from_id) then ret Denied
  else
    run saveAllowlist [];
    ret AllowlistCleared.

End Commands.

(** *** Start-up: the list of admins

    [(process.env.ADMIN_IDS || '').split(',').map(Number)], and the check
    that ends the process. *)

Definition parse_ADMIN_IDS (Number : jsstring -> JsNumber)
    (env : option jsstring) : list JsNumber :=
  let text := match env with
              | Some (c :: s) => c :: s
              | _ => []                 (* undefined and '' are falsy *)
              end in
  Number <$> split_on 44 text.

(** [ADMIN_IDS.length === 0 || ADMIN_IDS.every(id => isNaN(id))] *)
Definition admin_ids_rejected (ADMIN_IDS : list JsNumber) : bool :=
  (length ADMIN_IDS =? 0)%nat || forallb isNaN ADMIN_IDS.

(** ** The earlier version in the same file

    The second program in [index.js] has no cache: every [loadBlocklist]
    and [loadAllowlist] reads the file, and [isBlocked] and [isAllowed]
    load their list once per user.  Nothing is written, so the functions
    read a [Disk]. *)

Module Uncached.

Definition loadBlocklist (d : Disk) : list jsstring :=
  match blocklist_json d with
  | Present _ (ArrayOf parsed) => parsed
  | _ => []
  end.

Definition loadAllowlist (d : Disk) : list jsstring :=
  match allowlist_json d with
  | Present _ (ArrayOf parsed) => parsed
  | _ => []
  end.

Definition isBlocked (d : Disk) (userId : Z) : bool :=
  let blocklist := loadBlocklist d in
  bool_decide (String_of_number userId ∈ blocklist).

Definition filterBlockedUsers (d : Disk) (users : list Member) : list Member :=
  List.filter (fun user => negb (isBlocked d (id user))) users.

Definition isAllowed (d : Disk) (userId : Z) : bool :=
  let allowlist := loadAllowlist d in
  bool_decide (String_of_number userId ∈ allowlist).

Definition filterUsers (d : Disk) (users : list Member) : list Member :=
  let allowlist := loadAllowlist d in
  let users :=
    if (0 <? length allowlist)%nat
    then List.filter (fun user => isAllowed d (id user)) users
    else users in
  List.filter (fun user => negb (isBlocked d (id user))) users.

End Uncached.

(** ** More vocabulary *)





(** The part of a world that [loadBlocklist] looks at, and the part that
    [loadAllowlist] looks at. *)
Definition blocklist_view (w : World) : ListFile * option (list jsstring) * Z :=
  (blocklist_json (disk w), blocklistCache (cache w), blocklistLastModified (cache w)).

Definition allowlist_view (w : World) : ListFile * option (list jsstring) * Z :=
  (allowlist_json (disk w), allowlistCache (cache w), allowlistLastModified (cache w)).

(** Whether the lists [A] (allow) and [B] (block) let a member through. *)
Definition kept_by (A B : list jsstring) (m : Member) : bool :=
  match A with
  | [] => true
  | _ :: _ => bool_decide (String_of_number (id m) ∈ A)
  end
  && negb (bool_decide (String_of_number (id m) ∈ B)).

Definition is_reply (ev : Event) : bool :=
  match ev with EvReply _ => true | _ => false end.




(** The reference scenario on a disk that cannot be written. *)
Definition read_only_world : World :=
  world_with (Present 1 (ArrayOf [])) (Present 1 (ArrayOf [js "5"]))
    (Some (js "Hello")) false.

(** A provider with 25 members on one page. *)
Definition one_page_provider : nat -> jsstring -> Z -> Z -> ApiError + Page :=
  fun _ _ _ _ => inr {| count := 25; items := members_upto 25 |}.

(** * Properties *)

(** ** Helper lemmas on the monad and the lists *)

Lemma filter_filter_andb {A} (f g : A -> bool) (l : list A) :
  List.filter f (List.filter g l) = List.filter (fun x => g x && f x) l.
Proof.
  induction l as [|x l IH]; simpl; [done|].
  destruct (g x); simpl; [destruct (f x)|]; by rewrite IH.
Qed.

Lemma filter_ext_bool {A} (f g : A -> bool) (l : list A) :
  (∀ x, f x = g x) → List.filter f l = List.filter g l.
Proof. intros E. induction l as [|x l IH]; simpl; [done|]. by rewrite E, IH. Qed.

Lemma filter_true {A} (l : list A) : List.filter (fun _ => true) l = l.
Proof. induction l as [|x l IH]; simpl; [done|]. by rewrite IH. Qed.

Lemma list_to_set_nil_iff (l : list jsstring) :
  (list_to_set l : gset jsstring) = ∅ ↔ l = [].
Proof.
  split; [|by intros ->].
  destruct l as [|x l]; [done|]. simpl. intros E.
  assert (x ∈ (∅ : gset jsstring)) as H by (rewrite <- E; set_solver).
  set_solver.
Qed.

(** [filterUsers] runs the two loads and then filters. *)
Lemma filterUsers_eq (users : list Member) (w w1 w2 : World) (A B : list jsstring) :
  loadAllowlist w = (A, w1) → loadBlocklist w1 = (B, w2) →
  filterUsers users w
  = (Ret (List.filter (fun user =>
            if (0 <? length A)%nat
               && negb (bool_decide (String_of_number (id user) ∈ (list_to_set A : gset jsstring)))
            then false
            else negb (bool_decide (String_of_number (id user) ∈ (list_to_set B : gset jsstring))))
          users), w2).
Proof.
  intros HA HB. unfold filterUsers, bind, lift, ret. by rewrite HA, HB.
Qed.

(** The one-pass filter of the code is the two-step filter of the
    specification. *)
Lemma one_pass_is_two_steps (users : list Member) (A B : list jsstring) :
  List.filter (fun user =>
      if (0 <? length A)%nat
         && negb (bool_decide (String_of_number (id user) ∈ (list_to_set A : gset jsstring)))
      then false
      else negb (bool_decide (String_of_number (id user) ∈ (list_to_set B : gset jsstring))))
    users
  = filter_spec users (list_to_set A) (list_to_set B).
Proof.
  unfold filter_spec, block_removal, allow_gate.
  destruct (decide ((list_to_set A : gset jsstring) = ∅)) as [E|NE].
  - apply list_to_set_nil_iff in E. subst A. simpl. done.
  - assert ((0 <? length A)%nat = true) as ->.
    { destruct A; [by destruct NE|done]. }
    rewrite filter_filter_andb. apply filter_ext_bool. intros x. simpl.
    by destruct (bool_decide _).
Qed.

(** ** The recipient filter (C1, C9) *)

(** C1. For every member list [users] and every world in which the
    allowlist loads as [A] and the blocklist as [B], [filterUsers] returns
    exactly the two-step filter of the specification: allow-gating (only
    when [A] is not empty), then block removal.  Every member kept has its
    id string outside [B], and inside [A] when [A] is not empty; so an id
    in both lists is not in the result. *)
Theorem filterUsers_allow_then_block
    (users : list Member) (A B : list jsstring) (w w1 w2 : World) :
  loadAllowlist w = (A, w1) → loadBlocklist w1 = (B, w2) →
  filterUsers users w
    = (Ret (filter_spec users (list_to_set A) (list_to_set B)), w2)
  ∧ (A = [] → filter_spec users (list_to_set A) (list_to_set B)
              = List.filter (fun m => negb (bool_decide (String_of_number (id m) ∈ B))) users)
  ∧ (∀ m, m ∈ filter_spec users (list_to_set A) (list_to_set B) ↔
          m ∈ users
          ∧ (A ≠ [] → String_of_number (id m) ∈ A)
          ∧ String_of_number (id m) ∉ B)
  ∧ (∀ m, String_of_number (id m) ∈ A → String_of_number (id m) ∈ B →
          m ∉ filter_spec users (list_to_set A) (list_to_set B)).
Proof.
  intros HA HB.
  assert (∀ m, m ∈ filter_spec users (list_to_set A) (list_to_set B) ↔
          m ∈ users
          ∧ (A ≠ [] → String_of_number (id m) ∈ A)
          ∧ String_of_number (id m) ∉ B) as Hmem.
  { intros m. rewrite <- one_pass_is_two_steps.
    rewrite (list_elem_of_In (List.filter _ _) m), List.filter_In, <- list_elem_of_In.
    destruct A as [|a A].
    - simpl. rewrite negb_true_iff, bool_decide_eq_false.
      rewrite elem_of_list_to_set. intuition congruence.
    - cbn [length Nat.ltb Nat.leb andb].
      destruct (bool_decide (String_of_number (id m) ∈ (list_to_set (a :: A) : gset jsstring))) eqn:E;
        cbn [negb].
      + apply bool_decide_eq_true in E. rewrite elem_of_list_to_set in E.
        rewrite negb_true_iff, bool_decide_eq_false, elem_of_list_to_set.
        intuition congruence.
      + apply bool_decide_eq_false in E. rewrite elem_of_list_to_set in E.
        intuition congruence. }
  split; [|split; [|split]].
  - rewrite (filterUsers_eq users w w1 w2 A B HA HB).
    by rewrite one_pass_is_two_steps.
  - intros ->. rewrite <- one_pass_is_two_steps. simpl.
    apply filter_ext_bool. intros x. f_equal. apply bool_decide_ext.
    by rewrite elem_of_list_to_set.
  - exact Hmem.
  - intros m HmA HmB Hin. apply Hmem in Hin. tauto.
Qed.

(** C9. With an empty allowlist and an empty blocklist the filter is the
    identity. *)
Theorem filterUsers_empty_lists_identity (users : list Member) (w w1 w2 : World) :
  loadAllowlist w = ([], w1) → loadBlocklist w1 = ([], w2) →
  filterUsers users w = (Ret users, w2)
  ∧ filter_spec users ∅ ∅ = users.
Proof.
  intros HA HB.
  assert (filter_spec users ∅ ∅ = users) as E.
  { unfold filter_spec, block_removal, allow_gate.
    rewrite decide_True by done.
    rewrite <- (filter_true users) at 2. apply filter_ext_bool.
    intros x. rewrite bool_decide_eq_false_2; [done|set_solver]. }
  split; [|done].
  rewrite (filterUsers_eq users w w1 w2 [] [] HA HB).
  rewrite one_pass_is_two_steps. simpl. by rewrite E.
Qed.

(** ** Member enumeration (C2, C8) *)

Lemma after_calls_after_calls (a b : nat) (e1 e2 : list Event) (w : World) :
  after_calls b e2 (after_calls a e1 w) = after_calls (a + b) (e1 ++ e2) w.
Proof.
  unfold after_calls; simpl. f_equal; [lia | lia | by rewrite app_assoc].
Qed.

Section Enumeration.

Variable provider : nat -> jsstring -> Z -> Z -> ApiError + Page.
Variable gid : jsstring.

Lemma getMembers_ok offset cnt w data :
  provider (calls w) gid offset cnt = inr data →
  getMembers provider gid offset cnt w
  = (Ret data, after_calls 1 [EvGetMembers gid offset cnt] w).
Proof.
  intros E. unfold getMembers. rewrite E. f_equal.
  unfold after_calls, count_call, count_enqueued, log; simpl.
  f_equal; lia.
Qed.

Lemma getMembers_err offset cnt w e :
  provider (calls w) gid offset cnt = inl e →
  getMembers provider gid offset cnt w
  = (Throw (FromApi e), after_calls 1 [EvGetMembers gid offset cnt] w).
Proof.
  intros E. unfold getMembers. rewrite E. f_equal.
  unfold after_calls, count_call, count_enqueued, log; simpl.
  f_equal; lia.
Qed.

Lemma next_offset (j : nat) :
  (page_size * Z.of_nat j + page_size = page_size * Z.of_nat (S j))%Z.
Proof. unfold page_size. lia. Qed.

(** The loop when the next [k] requests succeed and the captured total is
    reached exactly after the [k]-th. *)
Lemma gather_loop_pages (k : nat) :
  ∀ (fuel j : nat) (members : list Member) (w : World) (tot : option Z)
    (pg : nat → Page),
  (k ≤ fuel)%nat → (1 ≤ k)%nat →
  (∀ i, (i < k)%nat →
     provider (calls w + i)%nat gid (page_size * Z.of_nat (j + i))%Z page_size
     = inr (pg i)) →
  (match tot with Some t => t | None => count (pg 0%nat) end
     ≤ page_size * Z.of_nat (j + k))%Z →
  (∀ i, (1 ≤ i < k)%nat →
     (page_size * Z.of_nat (j + i)
      < match tot with Some t => t | None => count (pg 0%nat) end)%Z) →
  gather_loop provider fuel gid members (page_size * Z.of_nat j) tot w
  = (Ret (members ++ concat ((fun i => items (pg i)) <$> seq 0 k)),
     after_calls k (requested gid j k) w).
Proof.
  induction k as [|k IH]; intros fuel j members w tot pg Hfuel Hk Hpg Hstop Hgo;
    [lia|].
  destruct fuel as [|fuel]; [lia|].
  cbn [gather_loop]. unfold bind at 1.
  rewrite (getMembers_ok _ _ w (pg 0%nat)).
  2:{ specialize (Hpg 0%nat ltac:(lia)).
      by rewrite Nat.add_0_r, Nat.add_0_r in Hpg. }
  set (t := match tot with Some t => t | None => count (pg 0%nat) end) in *.
  rewrite next_offset.
  destruct k as [|k].
  - assert ((t <=? page_size * Z.of_nat (S j))%Z = true) as ->.
    { apply Z.leb_le. by rewrite Nat.add_1_r in Hstop. }
    unfold ret. simpl. by rewrite app_nil_r.
  - assert ((t <=? page_size * Z.of_nat (S j))%Z = false) as ->.
    { apply Z.leb_gt. specialize (Hgo 1%nat ltac:(lia)).
      by rewrite Nat.add_1_r in Hgo. }
    rewrite (IH fuel (S j) _ _ (Some t) (fun i => pg (S i))).
    + rewrite after_calls_after_calls. f_equal.
      rewrite <- app_assoc. f_equal.
      change (seq 0 (S (S k))) with (0%nat :: seq 1 (S k)).
      rewrite fmap_cons. cbn [concat]. f_equal. f_equal.
      by rewrite <- fmap_S_seq, <- list_fmap_compose.
    + lia.
    + lia.
    + intros i Hi. specialize (Hpg (S i) ltac:(lia)).
      cbn [after_calls calls].
      replace (calls w + 1 + i)%nat with (calls w + S i)%nat by lia.
      replace (S j + i)%nat with (j + S i)%nat by lia. exact Hpg.
    + replace (S j + S k)%nat with (j + S (S k))%nat by lia. exact Hstop.
    + intros i Hi. specialize (Hgo (S i) ltac:(lia)).
      replace (S j + i)%nat with (j + S i)%nat by lia. exact Hgo.
Qed.

Lemma pages_needed_pos (t : Z) : (1 ≤ pages_needed t)%nat.
Proof. unfold pages_needed. generalize ((t + (page_size - 1)) / page_size)%Z. lia. Qed.

Lemma pages_needed_reaches (t : Z) :
  (t ≤ page_size * Z.of_nat (pages_needed t))%Z.
Proof.
  unfold pages_needed, page_size.
  pose proof (Z.div_mod (t + (1000 - 1)) 1000 ltac:(lia)) as E.
  pose proof (Z.mod_pos_bound (t + (1000 - 1)) 1000 ltac:(lia)) as B.
  revert E B.
  generalize ((t + (1000 - 1)) / 1000)%Z ((t + (1000 - 1)) mod 1000)%Z. lia.
Qed.

Lemma pages_needed_least (t : Z) (i : nat) :
  (1 ≤ i < pages_needed t)%nat → (page_size * Z.of_nat i < t)%Z.
Proof.
  unfold pages_needed, page_size.
  pose proof (Z.div_mod (t + (1000 - 1)) 1000 ltac:(lia)) as E.
  pose proof (Z.mod_pos_bound (t + (1000 - 1)) 1000 ltac:(lia)) as B.
  revert E B.
  generalize ((t + (1000 - 1)) / 1000)%Z ((t + (1000 - 1)) mod 1000)%Z. lia.
Qed.

(** Whatever the provider answers, the loop is over after at most [k]
    requests when the total (captured, or about to be) is at most
    [1000 * (j + k)]. *)
Lemma gather_loop_terminates (k : nat) :
  ∀ (fuel j : nat) (members : list Member) (w : World) (tot : option Z),
  (k ≤ fuel)%nat → (1 ≤ k)%nat →
  match tot with
  | Some t => (t ≤ page_size * Z.of_nat (j + k))%Z
  | None => ∀ data,
      provider (calls w) gid (page_size * Z.of_nat j)%Z page_size = inr data →
      (count data ≤ page_size * Z.of_nat (j + k))%Z
  end →
  ∃ (m : nat) (r : Result (list Member)),
    gather_loop provider fuel gid members (page_size * Z.of_nat j) tot w
    = (r, after_calls m (requested gid j m) w)
    ∧ r ≠ OutOfFuel ∧ (1 ≤ m ≤ k)%nat.
Proof.
  induction k as [|k IH]; intros fuel j members w tot Hfuel Hk Htot; [lia|].
  destruct fuel as [|fuel]; [lia|].
  cbn [gather_loop]. unfold bind at 1.
  destruct (provider (calls w) gid (page_size * Z.of_nat j)%Z page_size)
    as [e|data] eqn:E.
  - rewrite (getMembers_err _ _ w e E).
    exists 1%nat, (Throw (FromApi e)). split; [done|]. split; [done|lia].
  - rewrite (getMembers_ok _ _ w data E). rewrite next_offset.
    set (t := match tot with Some t => t | None => count data end).
    assert (t ≤ page_size * Z.of_nat (j + S k))%Z as Ht.
    { subst t. destruct tot; [done|]. by apply Htot. }
    destruct (t <=? page_size * Z.of_nat (S j))%Z eqn:Estop.
    + exists 1%nat, (Ret (members ++ items data)). split; [done|].
      split; [done|lia].
    + apply Z.leb_gt in Estop.
      assert (1 ≤ k)%nat as Hk'.
      { destruct k; [|lia]. rewrite Nat.add_1_r in Ht. lia. }
      destruct (IH fuel (S j) (members ++ items data)
                  (after_calls 1 [EvGetMembers gid (page_size * Z.of_nat j) page_size] w)
                  (Some t)) as (m & r & Hrun & Hr & Hm).
      * lia.
      * exact Hk'.
      * replace (S j + k)%nat with (j + S k)%nat by lia. exact Ht.
      * exists (S m), r. rewrite Hrun, after_calls_after_calls.
        split; [done|]. split; [done|lia].
Qed.

(** C2. When the first page reports the total [count (pg 0)] and the
    provider answers the requests the run makes with the pages [pg 0],
    [pg 1], ..., the enumeration asks for exactly
    [n = pages_needed (count (pg 0))] pages, at the offsets 0, 1000, ...,
    each with page size 1000, and returns the items of these pages in
    order; the totals that later pages report play no part.  It stops at
    the first offset that is at least the captured total.  With a first
    total of 2500 it makes the three requests at 0, 1000 and 2000. *)
Theorem gatherUserIds_pagination (pg : nat → Page) (w : World) (fuel : nat) :
  let n := pages_needed (count (pg 0%nat)) in
  let members := concat ((fun i => items (pg i)) <$> seq 0 n) in
  (n ≤ fuel)%nat →
  (∀ i, (i < n)%nat →
     provider (calls w + i)%nat gid (page_size * Z.of_nat i)%Z page_size
     = inr (pg i)) →
  gatherUserIds provider fuel gid w
    = (if writable (disk w) then Ret members
       else Throw (FailedToGather WriteFailed),
       (if writable (disk w) then with_disk (write_peer_list_json members)
        else fun w' => w')
         (after_calls n (requested gid 0 n) w))
  ∧ (count (pg 0%nat) ≤ page_size * Z.of_nat n)%Z
  ∧ (∀ i, (1 ≤ i < n)%nat → (page_size * Z.of_nat i < count (pg 0%nat))%Z)
  ∧ (count (pg 0%nat) = 2500%Z →
     requested gid 0 n
     = [EvGetMembers gid 0 1000; EvGetMembers gid 1000 1000;
        EvGetMembers gid 2000 1000]).
Proof.
  intros n members Hfuel Hpg.
  split; [|split; [|split]].
  - unfold gatherUserIds, try_catch, bind at 1.
    pose proof (gather_loop_pages n fuel 0 [] w None pg Hfuel (pages_needed_pos _))
      as Hrun.
    change (page_size * Z.of_nat 0)%Z with 0%Z in Hrun. rewrite Hrun.
    + fold members. unfold bind, writeFile_peer_list. cbn [after_calls disk].
      destruct (writable (disk w)); reflexivity.
    + intros i Hi. rewrite Nat.add_0_l. by apply Hpg.
    + rewrite Nat.add_0_l. apply pages_needed_reaches.
    + intros i Hi. rewrite Nat.add_0_l. by apply pages_needed_least.
  - apply pages_needed_reaches.
  - intros i Hi. by apply pages_needed_least.
  - intros E. subst n. rewrite E. reflexivity.
Qed.

(** C8. For every provider and every world the enumeration terminates:
    with [bound] the number of pages that the first total calls for (1
    when the first request fails), the loop is over after [m <= bound]
    requests, at the offsets 0, 1000, ..., [1000 * (m - 1)], whatever the
    later answers are and however few items the pages carry. *)
Theorem gatherUserIds_terminates (w : World) (extra : nat) :
  let bound :=
    match provider (calls w) gid 0%Z page_size with
    | inr data => pages_needed (count data)
    | inl _ => 1%nat
    end in
  ∃ (m : nat) (r : Result (list Member)) (w' : World),
    gatherUserIds provider (bound + extra) gid w = (r, w')
    ∧ r ≠ OutOfFuel
    ∧ (1 ≤ m ≤ bound)%nat
    ∧ trace w' = trace w ++ requested gid 0 m
    ∧ calls w' = (calls w + m)%nat.
Proof.
  intros bound.
  destruct (gather_loop_terminates bound (bound + extra) 0 [] w None)
    as (m & r & Hrun & Hr & Hm).
  - lia.
  - subst bound. destruct (provider _ _ _ _); [lia|apply pages_needed_pos].
  - intros data E. rewrite Nat.add_0_l. subst bound.
    change (page_size * Z.of_nat 0)%Z with 0%Z in E. rewrite E.
    apply pages_needed_reaches.
  - change (page_size * Z.of_nat 0)%Z with 0%Z in Hrun.
    unfold gatherUserIds, try_catch, bind at 1. rewrite Hrun.
    destruct r as [members|e|]; [|by eauto 10|done].
    unfold bind, writeFile_peer_list. cbn [after_calls disk].
    destruct (writable (disk w)).
    + exists m, (Ret members). eexists. split; [reflexivity|]. done.
    + exists m, (Throw (FailedToGather WriteFailed)). eexists.
      split; [reflexivity|]. done.
Qed.

End Enumeration.

(** ** Adding to the lists (C10) *)

Lemma Number_isInteger_spec (q : Q) :
  Number_isInteger (Finite q) = true ↔ ∃ k : Z, q == inject_Z k.
Proof.
  cbn [Number_isInteger]. rewrite Pos.eqb_eq. split.
  - intros Hden. exists (Qnum (Qred q)).
    rewrite <- (Qred_correct q) at 1.
    destruct (Qred q) as [n d]. simpl in *. subst d. reflexivity.
  - intros [k Hk]. rewrite (Qred_complete _ _ Hk).
    rewrite Qred_identity; [done|]. simpl. apply Z.gcd_1_r.
Qed.

Lemma isValidUserId_spec (Number : jsstring → JsNumber) (userId : jsstring) :
  isValidUserId Number userId = true ↔ positive_integer (Number userId).
Proof.
  unfold isValidUserId, positive_integer.
  destruct (Number userId) as [|neg|q].
  - split; [done|]. by intros (q & k & [=] & _).
  - split; [by rewrite andb_false_r|]. by intros (q & k & [=] & _).
  - cbn [isNaN negb gt0 andb]. rewrite andb_true_iff, Z.ltb_lt, Number_isInteger_spec.
    split.
    + intros [Hpos [k Hk]]. exists q, k. split; [done|]. split; [|done].
      unfold Qeq in Hk. simpl in Hk. nia.
    + intros (q' & k & [= <-] & Hpos & Hk). split; [|by exists k].
      unfold Qeq in Hk. simpl in Hk. nia.
Qed.

Lemma loadBlocklist_effect (w w1 : World) (l : list jsstring) :
  loadBlocklist w = (l, w1) →
  blocklistCache (cache w1) = Some l ∧ disk w1 = disk w ∧ trace w1 = trace w
  ∧ allowlistCache (cache w1) = allowlistCache (cache w)
  ∧ allowlistLastModified (cache w1) = allowlistLastModified (cache w)
  ∧ counters w1 = counters w ∧ calls w1 = calls w ∧ enqueued w1 = enqueued w.
Proof.
  unfold loadBlocklist.
  destruct (blocklist_json (disk w)) as [|m body].
  - intros [= <- <-]. done.
  - destruct (blocklistCache (cache w)) as [cached|] eqn:Ec.
    + destruct (m <=? _)%Z.
      * intros [= <- <-]. done.
      * destruct (read_list m body). intros [= <- <-]. done.
    + destruct (read_list m body). intros [= <- <-]. done.
Qed.

Lemma loadAllowlist_effect (w w1 : World) (l : list jsstring) :
  loadAllowlist w = (l, w1) →
  allowlistCache (cache w1) = Some l ∧ disk w1 = disk w ∧ trace w1 = trace w
  ∧ blocklistCache (cache w1) = blocklistCache (cache w)
  ∧ blocklistLastModified (cache w1) = blocklistLastModified (cache w)
  ∧ counters w1 = counters w ∧ calls w1 = calls w ∧ enqueued w1 = enqueued w.
Proof.
  unfold loadAllowlist.
  destruct (allowlist_json (disk w)) as [|m body].
  - intros [= <- <-]. done.
  - destruct (allowlistCache (cache w)) as [cached|] eqn:Ec.
    + destruct (m <=? _)%Z.
      * intros [= <- <-]. done.
      * destruct (read_list m body). intros [= <- <-]. done.
    + destruct (read_list m body). intros [= <- <-]. done.
Qed.

Lemma addToBlocklist_valid (Number : jsstring → JsNumber) (userId : jsstring)
    (w w1 : World) (l : list jsstring) :
  isValidUserId Number userId = true → loadBlocklist w = (l, w1) →
  addToBlocklist Number userId w
  = if bool_decide (userId ∈ l) then (Ret false, w1)
    else if writable (disk w1) then
      (Ret true,
       with_cache (set_blocklistCache (l ++ [userId]) (clock (disk w1)))
         (with_disk (write_blocklist_json (l ++ [userId]))
            (with_cache (push_blocklist userId) w1)))
    else (Throw FailedToSaveBlocklist, with_cache (push_blocklist userId) w1).
Proof.
  intros Hv Hl. unfold addToBlocklist. rewrite Hv. cbn [negb].
  unfold bind at 1. unfold lift. rewrite Hl.
  destruct (bool_decide (userId ∈ l)); cbn [negb]; [done|].
  unfold bind, modify, saveBlocklist, ret. cbn [with_cache disk].
  by destruct (writable (disk w1)).
Qed.

Lemma addToAllowlist_valid (Number : jsstring → JsNumber) (userId : jsstring)
    (w w1 : World) (l : list jsstring) :
  isValidUserId Number userId = true → loadAllowlist w = (l, w1) →
  addToAllowlist Number userId w
  = if bool_decide (userId ∈ l) then (Ret false, w1)
    else if writable (disk w1) then
      (Ret true,
       with_cache (set_allowlistCache (l ++ [userId]) (clock (disk w1)))
         (with_disk (write_allowlist_json (l ++ [userId]))
            (with_cache (push_allowlist userId) w1)))
    else (Throw FailedToSaveAllowlist, with_cache (push_allowlist userId) w1).
Proof.
  intros Hv Hl. unfold addToAllowlist. rewrite Hv. cbn [negb].
  unfold bind at 1. unfold lift. rewrite Hl.
  destruct (bool_decide (userId ∈ l)); cbn [negb]; [done|].
  unfold bind, modify, saveAllowlist, ret. cbn [with_cache disk].
  by destruct (writable (disk w1)).
Qed.

(** C10, as the code has it.  [addToBlocklist] and [addToAllowlist] throw
    'Invalid user ID format' exactly when [Number(userId)] is not a
    positive integer, and then nothing at all has changed.  For a valid id
    that the loaded list already has they return [false] and leave the
    files as they were.  For a valid id that is new they write the loaded
    list with the id appended and return [true] when the write succeeds;
    when it fails they throw 'Failed to save blocklist' (or 'allowlist')
    and the files are as they were. *)
Theorem addTo_lists_behaviour
    (Number : jsstring → JsNumber) (userId : jsstring) (w : World) :
  (isValidUserId Number userId = true ↔ positive_integer (Number userId))
  ∧ (¬ positive_integer (Number userId) →
       addToBlocklist Number userId w = (Throw InvalidUserIdFormat, w)
       ∧ addToAllowlist Number userId w = (Throw InvalidUserIdFormat, w))
  ∧ (positive_integer (Number userId) →
       (addToBlocklist Number userId w).1 ≠ Throw InvalidUserIdFormat
       ∧ (addToAllowlist Number userId w).1 ≠ Throw InvalidUserIdFormat
       ∧ (let (l, w1) := loadBlocklist w in
          if bool_decide (userId ∈ l) then
            addToBlocklist Number userId w = (Ret false, w1) ∧ disk w1 = disk w
          else if writable (disk w) then
            ∃ w2, addToBlocklist Number userId w = (Ret true, w2)
                  ∧ blocklist_json (disk w2)
                    = Present (clock (disk w)) (ArrayOf (l ++ [userId]))
                  ∧ allowlist_json (disk w2) = allowlist_json (disk w)
          else
            ∃ w2, addToBlocklist Number userId w = (Throw FailedToSaveBlocklist, w2)
                  ∧ disk w2 = disk w)
       ∧ (let (l, w1) := loadAllowlist w in
          if bool_decide (userId ∈ l) then
            addToAllowlist Number userId w = (Ret false, w1) ∧ disk w1 = disk w
          else if writable (disk w) then
            ∃ w2, addToAllowlist Number userId w = (Ret true, w2)
                  ∧ allowlist_json (disk w2)
                    = Present (clock (disk w)) (ArrayOf (l ++ [userId]))
                  ∧ blocklist_json (disk w2) = blocklist_json (disk w)
          else
            ∃ w2, addToAllowlist Number userId w = (Throw FailedToSaveAllowlist, w2)
                  ∧ disk w2 = disk w)).
Proof.
  pose proof (isValidUserId_spec Number userId) as Hspec.
  split; [exact Hspec|]. split.
  - intros Hn. unfold addToBlocklist, addToAllowlist.
    destruct (isValidUserId Number userId); [|done].
    by destruct Hn; apply Hspec.
  - intros Hp. apply Hspec in Hp.
    destruct (loadBlocklist w) as [lb wb] eqn:Eb.
    destruct (loadAllowlist w) as [la wa] eqn:Ea.
    destruct (loadBlocklist_effect _ _ _ Eb) as (_ & Hdb & _).
    destruct (loadAllowlist_effect _ _ _ Ea) as (_ & Hda & _).
    rewrite (addToBlocklist_valid Number userId w wb lb Hp Eb).
    rewrite (addToAllowlist_valid Number userId w wa la Hp Ea).
    rewrite Hdb, Hda.
    destruct (bool_decide (userId ∈ lb)), (bool_decide (userId ∈ la));
      destruct (writable (disk w)); cbn [fst];
      repeat split; try done; eexists; (split; [reflexivity|]);
      cbn [disk with_disk with_cache write_blocklist_json write_allowlist_json
           blocklist_json allowlist_json]; rewrite ?Hdb, ?Hda; done.
Qed.

(** ** Broadcast: frame lemmas *)

Lemma same_but_cache_refl (w : World) : same_but_cache w w.
Proof. by unfold same_but_cache. Qed.

Lemma same_but_cache_trans (w1 w2 w3 : World) :
  same_but_cache w1 w2 → same_but_cache w2 w3 → same_but_cache w1 w3.
Proof. unfold same_but_cache. intuition congruence. Qed.

Lemma loadAllowlist_frame (w : World) : same_but_cache w (loadAllowlist w).2.
Proof.
  destruct (loadAllowlist w) as [l w1] eqn:E.
  apply loadAllowlist_effect in E. unfold same_but_cache. simpl. tauto.
Qed.

Lemma loadBlocklist_frame (w : World) : same_but_cache w (loadBlocklist w).2.
Proof.
  destruct (loadBlocklist w) as [l w1] eqn:E.
  apply loadBlocklist_effect in E. unfold same_but_cache. simpl. tauto.
Qed.

Lemma filterUsers_frame (users : list Member) (w : World) :
  ∃ filtered w', filterUsers users w = (Ret filtered, w') ∧ same_but_cache w w'.
Proof.
  destruct (loadAllowlist w) as [A w1] eqn:EA.
  destruct (loadBlocklist w1) as [B w2] eqn:EB.
  eexists _, w2. split; [by apply (filterUsers_eq users w w1 w2 A B)|].
  eapply same_but_cache_trans.
  - pose proof (loadAllowlist_frame w) as H. rewrite EA in H. exact H.
  - pose proof (loadBlocklist_frame w1) as H. rewrite EB in H. exact H.
Qed.

Lemma allowedUsers_frame (users : list Member) :
  ∀ w, ∃ allowed w', allowedUsers users w = (Ret allowed, w') ∧ same_but_cache w w'.
Proof.
  induction users as [|user rest IH]; intros w.
  - exists [], w. split; [done|apply same_but_cache_refl].
  - cbn [allowedUsers]. unfold bind at 1. unfold lift.
    destruct (loadAllowlist w) as [A w1] eqn:EA.
    destruct (IH w1) as (allowed & w2 & Hrun & Hsame).
    unfold bind. rewrite Hrun. eexists _, w2. split; [reflexivity|].
    eapply same_but_cache_trans; [|exact Hsame].
    pose proof (loadAllowlist_frame w) as H. rewrite EA in H. exact H.
Qed.

Lemma enqueue_tasks_eq messages_send template dryRun total (users : list Member) :
  ∀ (task : nat) (w : World),
  enqueue_tasks messages_send template dryRun total task users w
  = (Ret (tasks_of messages_send template dryRun total task users),
     {| disk := disk w; cache := cache w; counters := counters w;
        calls := calls w; enqueued := enqueued w + length users;
        trace := trace w |}).
Proof.
  induction users as [|user rest IH]; intros task w.
  - cbn. unfold ret. f_equal. destruct w; simpl. f_equal. lia.
  - cbn [enqueue_tasks tasks_of]. unfold bind at 1. unfold modify.
    unfold bind. rewrite IH. unfold ret. f_equal.
    unfold count_enqueued; simpl. f_equal. lia.
Qed.

(** [broadcast] is: filter, count, queue one task per filtered user, run
    the queue dry. *)
Lemma broadcast_eq messages_send compile tmpl (users : list Member) dryRun (w : World) :
  ∃ filtered w1 wp,
    filterUsers users w = (Ret filtered, w1)
    ∧ same_but_cache w wp
    ∧ broadcast messages_send compile tmpl users dryRun w
      = match onIdle (tasks_of messages_send (compile tmpl) dryRun
                        (length filtered) 0 filtered)
                     (run_start (length filtered) wp) with
        | (Ret _, w') => (Ret Undefined, w')
        | (Throw e, w') => (Throw e, w')
        | (OutOfFuel, w') => (OutOfFuel, w')
        end.
Proof.
  destruct (filterUsers_frame users w) as (filtered & w1 & Hf & Hs1).
  exists filtered, w1.
  assert (∃ wp, same_but_cache w1 wp ∧
    (if (0 <? length users - length filtered)%nat then
       do allowlist <- lift loadAllowlist;
       if (0 <? length allowlist)%nat
       then do _ <- allowedUsers users; ret tt
       else ret tt
     else ret tt) w1 = (Ret tt, wp)) as (wp & Hs2 & Hstat).
  { destruct (0 <? _)%nat.
    - unfold bind at 1. unfold lift.
      destruct (loadAllowlist w1) as [A w2] eqn:EA.
      pose proof (loadAllowlist_frame w1) as HA. rewrite EA in HA. simpl in HA.
      destruct (0 <? length A)%nat.
      + destruct (allowedUsers_frame users w2) as (al & w3 & Hal & Hs3).
        exists w3. split; [by eapply same_but_cache_trans|].
        unfold bind. by rewrite Hal.
      + by exists w2.
    - exists w1. split; [apply same_but_cache_refl|done]. }
  exists wp. split; [done|]. split; [by eapply same_but_cache_trans|].
  unfold broadcast, try_catch. unfold bind at 1. rewrite Hf.
  unfold bind at 1. rewrite Hstat.
  unfold bind at 1. unfold modify.
  unfold bind at 1. rewrite enqueue_tasks_eq.
  unfold bind at 1. cbn [with_counters disk cache counters calls enqueued trace].
  unfold run_start.
  destruct (onIdle _ _) as [[[]|e|] w']; reflexivity.
Qed.

(** ** Dry runs (C6) *)

Lemma send_task_dry messages_send total task (user : Member) msg (w : World) :
  ∃ w',
    send_task messages_send true total task user msg w = (Ret tt, w')
    ∧ trace w'
      = trace w ++ EvDryRun (id user) msg
          :: (if (S (processed (counters w)) mod 10 =? 0)%nat
                 || (S (processed (counters w)) =? total)%nat
              then [EvProgress (S (processed (counters w))) total] else [])
    ∧ calls w' = calls w ∧ enqueued w' = enqueued w
    ∧ processed (counters w') = S (processed (counters w))
    ∧ skipped (counters w') = skipped (counters w).
Proof.
  unfold send_task, try_catch, bind, modify, gets.
  cbn [with_counters log counters set_processed processed].
  destruct (_ || _); eexists; (split; [reflexivity|]); cbn;
    rewrite <- ?app_assoc; done.
Qed.

Lemma onIdle_dry messages_send template total (users : list Member) :
  ∀ (task : nat) (w : World),
  ∃ w' evs,
    onIdle (tasks_of messages_send template true total task users) w = (Ret tt, w')
    ∧ trace w' = trace w ++ evs
    ∧ Forall (fun ev => is_quiet ev = true) evs
    ∧ List.filter is_dry_run evs
      = (fun u => EvDryRun (id u) (template (fields_of u))) <$> users
    ∧ calls w' = calls w ∧ enqueued w' = enqueued w
    ∧ processed (counters w') = (processed (counters w) + length users)%nat
    ∧ skipped (counters w') = skipped (counters w).
Proof.
  induction users as [|user rest IH]; intros task w.
  - exists w, []. cbn. rewrite app_nil_r, Nat.add_0_r. done.
  - cbn [tasks_of onIdle]. unfold bind at 1, try_catch.
    destruct (send_task_dry messages_send total task user
                (template (fields_of user)) w)
      as (w1 & Hrun & Htr & Hc & Ha & Hp & Hs).
    rewrite Hrun.
    destruct (IH (S task) w1) as (w2 & evs & Hrun2 & Htr2 & Hq & Hd & Hc2 & Ha2 & Hp2 & Hs2).
    rewrite Hrun2. eexists w2, _. split; [reflexivity|].
    split; [rewrite Htr2, Htr, <- app_assoc; reflexivity|].
    split; [|split; [|split; [|split; [|split]]]].
    + cbn [app]. constructor; [done|].
      apply Forall_app. split; [|done]. destruct (_ || _); by repeat constructor.
    + cbn [app List.filter is_dry_run fmap list_fmap]. f_equal.
      rewrite List.filter_app. destruct (_ || _); cbn; by rewrite Hd.
    + congruence.
    + congruence.
    + rewrite Hp2, Hp. cbn [length]. lia.
    + congruence.
Qed.


(** ** Live runs and the retry after a throttle (C3) *)

Section Live.

Variable messages_send : nat -> nat -> Z -> jsstring -> option ApiError.



End Live.



(** ** The [/broadcast] command with an unusable template (C7) *)

Section Command.

Variable GROUP_ID : jsstring.
Variable ADMIN_IDS : list Z.
Variable provider : nat -> jsstring -> Z -> Z -> ApiError + Page.
Variable messages_send : nat -> nat -> Z -> jsstring -> option ApiError.
Variable compile : jsstring -> TemplateFields -> jsstring.

(** With any fuel and any provider, the loop leaves nothing behind but
    its page requests. *)
Lemma gather_loop_world (fuel : nat) :
  ∀ (j : nat) (members : list Member) (w : World) (tot : option Z),
  ∃ (m : nat) (r : Result (list Member)),
    gather_loop provider fuel GROUP_ID members (page_size * Z.of_nat j) tot w
    = (r, after_calls m (requested GROUP_ID j m) w).
Proof.
  induction fuel as [|fuel IH]; intros j members w tot.
  - exists 0%nat, OutOfFuel. cbn. f_equal.
    unfold after_calls. destruct w; cbn. by rewrite !Nat.add_0_r, app_nil_r.
  - cbn [gather_loop]. unfold bind at 1.
    destruct (provider (calls w) GROUP_ID (page_size * Z.of_nat j)%Z page_size)
      as [e|data] eqn:E.
    + rewrite (getMembers_err _ _ _ _ w e E). by exists 1%nat, (Throw (FromApi e)).
    + rewrite (getMembers_ok _ _ _ _ w data E). rewrite next_offset.
      destruct (_ <=? _)%Z.
      * by eexists 1%nat, _.
      * destruct (IH (S j) (members ++ items data)
                    (after_calls 1 [EvGetMembers GROUP_ID (page_size * Z.of_nat j) page_size] w)
                    (Some (match tot with Some t => t | None => count data end)))
          as (m & r & Hrun).
        exists (S m), r. by rewrite Hrun, after_calls_after_calls.
Qed.

Lemma gatherUserIds_world (fuel : nat) (w : World) :
  ∃ (m : nat) (r : Result (list Member)) (w' : World),
    gatherUserIds provider fuel GROUP_ID w = (r, w')
    ∧ trace w' = trace w ++ requested GROUP_ID 0 m
    ∧ enqueued w' = (enqueued w + m)%nat
    ∧ calls w' = (calls w + m)%nat
    ∧ broadcast_template_txt (disk w') = broadcast_template_txt (disk w).
Proof.
  destruct (gather_loop_world fuel 0 [] w None) as (m & r & Hrun).
  change (page_size * Z.of_nat 0)%Z with 0%Z in Hrun.
  unfold gatherUserIds, try_catch. unfold bind at 1. rewrite Hrun.
  destruct r as [members|e|].
  - unfold bind, writeFile_peer_list. cbn [after_calls disk].
    destruct (writable (disk w)); by eexists m, _, _.
  - by eexists m, _, _.
  - by eexists m, _, _.
Qed.

(** C7. When [broadcast_template.txt] cannot be read, or is empty once
    trimmed, the [/broadcast] command queues no send task and sends
    nothing: its whole trace is the replies to the invoker and the page
    requests of the enumeration.  The invoker is told with a reply that
    is not the one of a completed broadcast: 'Could not read ...' or
    'Template file is empty.' after a successful enumeration. *)
Theorem broadcast_command_unusable_template (fuel : nat) (from_id : Z) (w : World) :
  broadcast_template_txt (disk w) = None
  ∨ (∃ text, broadcast_template_txt (disk w) = Some text ∧ trim text = []) →
  ∃ (r : Result unit) (w' : World) (m : nat) (final : list Event),
    broadcast_command GROUP_ID ADMIN_IDS provider messages_send compile
      fuel from_id w = (r, w')
    ∧ trace w'
      = trace w ++
        (if isAdmin ADMIN_IDS from_id
         then EvReply UpdatingRecipientList :: requested GROUP_ID 0 m ++ final
         else final)
    ∧ enqueued w' = (enqueued w + (if isAdmin ADMIN_IDS from_id then m else 0))%nat
    ∧ calls w' = (calls w + (if isAdmin ADMIN_IDS from_id then m else 0))%nat
    ∧ (final = [] ∧ r = OutOfFuel
       ∨ r = Ret tt
         ∧ ∃ rep, final = [EvReply rep]
                  ∧ match rep with
                    | AccessDenied | CouldNotReadTemplate | TemplateFileEmpty
                    | BroadcastFailed (FailedToGather _) => True
                    | _ => False
                    end)
    ∧ (isAdmin ADMIN_IDS from_id = true →
       ∀ users wg,
         gatherUserIds provider fuel GROUP_ID (log [EvReply UpdatingRecipientList] w)
         = (Ret users, wg) →
         r = Ret tt
         ∧ final = [EvReply (match broadcast_template_txt (disk w) with
                             | None => CouldNotReadTemplate
                             | Some _ => TemplateFileEmpty
                             end)]).
Proof.
  intros Htemplate. unfold broadcast_command.
  destruct (isAdmin ADMIN_IDS from_id) eqn:Hadmin; cbn [negb].
  2:{ exists (Ret tt), (log [EvReply AccessDenied] w), 0%nat, [EvReply AccessDenied].
      split; [done|]. split; [done|]. split; [cbn; lia|]. split; [cbn; lia|].
      split; [|done]. right. split; [done|]. by exists AccessDenied. }
  unfold bind at 1. unfold reply at 1. unfold modify at 1.
  set (w0 := log [EvReply UpdatingRecipientList] w).
  destruct (gatherUserIds_world fuel w0) as (m & rg & wg & Hg & Htr & Hadm & Hcalls & Htpl).
  unfold try_catch. unfold bind at 1. rewrite Hg.
  destruct rg as [users|e|].
  - destruct (filterUsers_frame users wg) as (filtered & w2 & Hf & Hs2).
    unfold bind at 1. rewrite Hf.
    unfold bind at 1. unfold lift.
    destruct (loadAllowlist w2) as [A w3] eqn:EA.
    pose proof (loadAllowlist_frame w2) as Hs3. rewrite EA in Hs3. cbn in Hs3.
    pose proof (same_but_cache_trans _ _ _ Hs2 Hs3) as (Hd & _ & Hc & Ha & Ht).
    unfold bind at 1. unfold gets.
    assert (broadcast_template_txt (disk w3) = broadcast_template_txt (disk w)) as Hcontent.
    { by rewrite Hd, Htpl. }
    rewrite Hcontent.
    destruct Htemplate as [Hnone | (text & Hsome & Hempty)].
    + rewrite Hnone.
      exists (Ret tt), (log [EvReply CouldNotReadTemplate] w3), m,
        [EvReply CouldNotReadTemplate].
      split; [done|].
      split; [cbn; rewrite Ht, Htr; cbn; by rewrite <- !app_assoc|].
      split; [cbn; by rewrite Ha, Hadm|]. split; [cbn; by rewrite Hc, Hcalls|].
      split; [right; split; [done|]; by exists CouldNotReadTemplate|].
      intros _ users' wg' Hg'. done.
    + rewrite Hsome, Hempty.
      exists (Ret tt), (log [EvReply TemplateFileEmpty] w3), m,
        [EvReply TemplateFileEmpty].
      split; [done|].
      split; [cbn; rewrite Ht, Htr; cbn; by rewrite <- !app_assoc|].
      split; [cbn; by rewrite Ha, Hadm|]. split; [cbn; by rewrite Hc, Hcalls|].
      split; [right; split; [done|]; by exists TemplateFileEmpty|].
      intros _ users' wg' Hg'. done.
  - assert (∃ cause, e = FailedToGather cause) as [cause ->].
    { pose proof Hg as Hg0. unfold gatherUserIds, try_catch in Hg0.
      destruct (bind _ _ w0) as [[?|e'|] ?]; [done| |done].
      unfold throw in Hg0. injection Hg0 as <- _. by eexists. }
    exists (Ret tt), (log [EvReply (BroadcastFailed (FailedToGather cause))] wg), m,
      [EvReply (BroadcastFailed (FailedToGather cause))].
    split; [done|].
    split; [cbn; rewrite Htr; cbn; by rewrite <- !app_assoc|].
    split; [by cbn|]. split; [by cbn|].
    split; [right; split; [done|]; by eexists|].
    intros _ users' wg' Hg'. done.
  - exists OutOfFuel, wg, m, [].
    split; [done|]. split; [rewrite Htr; cbn; by rewrite app_nil_r, <- app_assoc|].
    split; [done|]. split; [done|]. split; [by left|].
    intros _ users' wg' Hg'. done.
Qed.

End Command.

(** ** The reference scenario (C5) *)

(** C5, as the code has it.  [broadcast] returns nothing: the call
    evaluates to [undefined] and the counters stay inside the run.  In the
    reference scenario (25 members, empty allowlist, blocklist ["5"]) 24
    users pass the filter and 24 tasks are enqueued.  The dry run ends
    with [processed = 24], 24 simulated sends and no API call; the live
    run of [index.js], which has no permission check, ends with
    [processed = 24] after 24 sends.  In the version with the permission
    check, a live run in which one user does not allow messages ends with
    [processed = 24] and [skipped = 1] after 23 sends, and logs the
    summary '23 sent, 1 skipped'. *)
Theorem broadcast_reference_scenario
    (messages_send : nat → nat → Z → jsstring → option ApiError)
    (compile : jsstring → TemplateFields → jsstring) (tmpl : jsstring) :
  let users := members_upto 25 in
  ((filterUsers users reference_world).1
     = Ret (List.filter (fun m => negb (id m =? 5)%Z) users)
   ∧ length (List.filter (fun m => negb (id m =? 5)%Z) users) = 24%nat)
  ∧ (let (r, w') := broadcast messages_send compile tmpl users true reference_world in
     r = Ret Undefined ∧ enqueued w' = 24%nat
     ∧ counters w' = {| processed := 24; skipped := 0 |}
     ∧ length (List.filter is_dry_run (trace w')) = 24%nat
     ∧ calls w' = 0%nat)
  ∧ (let (r, w') := broadcast send_ok compile tmpl users false reference_world in
     r = Ret Undefined ∧ enqueued w' = 24%nat
     ∧ counters w' = {| processed := 24; skipped := 0 |}
     ∧ length (List.filter is_send (trace w')) = 24%nat)
  ∧ (let (r, w') := WithPermissionCheck.sendBroadcast (deny_only 7) send_ok
                      compile tmpl users false reference_world in
     r = Ret Undefined ∧ enqueued w' = 24%nat
     ∧ counters w' = {| processed := 24; skipped := 1 |}
     ∧ length (List.filter is_send (trace w')) = 23%nat
     ∧ last (trace w') = Some (EvSummary 23 1))
  ∧ (let (r, w') := WithPermissionCheck.sendBroadcast (deny_only 7) messages_send
                      compile tmpl users true reference_world in
     r = Ret Undefined ∧ enqueued w' = 24%nat
     ∧ counters w' = {| processed := 24; skipped := 0 |}
     ∧ length (List.filter is_dry_run (trace w')) = 24%nat
     ∧ calls w' = 0%nat).
Proof.
  intros users. subst users. vm_compute. repeat split.
Qed.

(** The claim as stated fails: the dry run of the reference scenario does
    not evaluate to the record [{processed: 24, sent: 24, skipped: 0}]. *)
Lemma broadcast_returns_no_outcome_record :
  (broadcast send_ok plain_template (js "Hello") (members_upto 25) true
     reference_world).1 = Ret Undefined
  ∧ (broadcast send_ok plain_template (js "Hello") (members_upto 25) true
       reference_world).1
    ≠ Ret (OutcomeRecord {| outcome_processed := 24; outcome_sent := 24;
                            outcome_skipped := 0 |}).
Proof. split; [vm_compute; reflexivity|]. vm_compute. discriminate. Qed.

(** ** Worked instances *)

(** C1 at the 25 members, allowlist ["5"; "7"] and blocklist ["5"]:
    member 5, on both lists, is not kept. *)
Lemma filterUsers_allow_then_block_witness :
  filterUsers (members_upto 25)
    (world_with (Present 1 (ArrayOf [js "5"; js "7"]))
                (Present 1 (ArrayOf [js "5"])) None true)
  = (Ret (filter_spec (members_upto 25)
            (list_to_set [js "5"; js "7"]) (list_to_set [js "5"])),
     (loadBlocklist
        (loadAllowlist
           (world_with (Present 1 (ArrayOf [js "5"; js "7"]))
                       (Present 1 (ArrayOf [js "5"])) None true)).2).2).
Proof.
  apply (filterUsers_allow_then_block (members_upto 25) [js "5"; js "7"] [js "5"]
           (world_with (Present 1 (ArrayOf [js "5"; js "7"]))
                       (Present 1 (ArrayOf [js "5"])) None true) _ _
           eq_refl eq_refl).
Defined.

(** C9 at the 25 members with both files holding [[]]. *)
Lemma filterUsers_empty_lists_identity_witness :
  filterUsers (members_upto 25)
    (world_with (Present 1 (ArrayOf [])) (Present 1 (ArrayOf [])) None true)
  = (Ret (members_upto 25),
     (loadBlocklist
        (loadAllowlist
           (world_with (Present 1 (ArrayOf [])) (Present 1 (ArrayOf [])) None true)).2).2).
Proof.
  apply (filterUsers_empty_lists_identity (members_upto 25)
           (world_with (Present 1 (ArrayOf [])) (Present 1 (ArrayOf [])) None true)
           _ _ eq_refl eq_refl).
Defined.

(** C2 at a provider whose first page reports 2500 and whose later pages
    report 7: three requests, at 0, 1000 and 2000. *)
Lemma gatherUserIds_pagination_witness :
  (gatherUserIds changing_provider 3 (js "1") reference_world).1
  = Ret [ {| id := 1; first_name := None; last_name := None |};
          {| id := 2; first_name := None; last_name := None |};
          {| id := 3; first_name := None; last_name := None |} ]
  ∧ requested (js "1") 0 (pages_needed 2500)
    = [EvGetMembers (js "1") 0 1000; EvGetMembers (js "1") 1000 1000;
       EvGetMembers (js "1") 2000 1000].
Proof.
  destruct (gatherUserIds_pagination changing_provider (js "1")
              (fun i => {| count := match i with O => 2500%Z | S _ => 7%Z end;
                           items := [ {| id := Z.of_nat (S i); first_name := None;
                                         last_name := None |} ] |})
              reference_world 3)
    as (Hrun & _ & _ & Hthree).
  - vm_compute. lia.
  - intros i _. reflexivity.
  - split.
    + rewrite Hrun. reflexivity.
    + apply Hthree. reflexivity.
Defined.


(** C7 at a world without [broadcast_template.txt], for an admin and a
    group of 25 members on one page. *)
Lemma broadcast_command_unusable_template_witness :
  ∃ w' m,
    broadcast_command (js "1") [42%Z]
      (fun _ _ _ _ => inr {| count := 25; items := members_upto 25 |})
      send_ok plain_template 1 42
      (world_with Missing Missing None true) = (Ret tt, w')
    ∧ trace w'
      = EvReply UpdatingRecipientList :: requested (js "1") 0 m
          ++ [EvReply CouldNotReadTemplate]
    ∧ enqueued w' = m.
Proof.
  destruct (broadcast_command_unusable_template (js "1") [42%Z]
              (fun _ _ _ _ => inr {| count := 25; items := members_upto 25 |})
              send_ok plain_template 1 42
              (world_with Missing Missing None true))
    as (r & w' & m & final & Hrun & Htr & Hadm & _ & _ & Hfinal).
  - left. reflexivity.
  - destruct (Hfinal eq_refl (members_upto 25) _ eq_refl) as [-> ->].
    exists w', m. split; [exact Hrun|]. split; [exact Htr|exact Hadm].
Defined.

(** C10 at the id "5" and an empty, writable blocklist: the id is
    appended and [true] returned. *)
Lemma addTo_lists_behaviour_witness :
  ∃ w2,
    addToBlocklist Number_of_digits (js "5")
      (world_with Missing Missing None true) = (Ret true, w2)
    ∧ blocklist_json (disk w2) = Present 1 (ArrayOf [js "5"])
    ∧ allowlist_json (disk w2) = Missing.
Proof.
  destruct (addTo_lists_behaviour Number_of_digits (js "5")
              (world_with Missing Missing None true)) as (_ & _ & H).
  destruct H as (_ & _ & Hb & _).
  - exists (inject_Z 5), 5%Z. split; [reflexivity|]. split; [lia|reflexivity].
  - exact Hb.
Defined.

(** ** Where the claims as stated fail *)


(** C10 as stated has a valid new id appended and [true] returned.  When
    the file cannot be written, [addToBlocklist] throws 'Failed to save
    blocklist' instead, and the file is as it was. *)
Lemma addToBlocklist_write_fails :
  positive_integer (Number_of_digits (js "5"))
  ∧ ((js "5") ∉ (loadBlocklist (world_with Missing Missing None false)).1)
  ∧ (addToBlocklist Number_of_digits (js "5")
       (world_with Missing Missing None false)).1
    = Throw FailedToSaveBlocklist
  ∧ (addToBlocklist Number_of_digits (js "5")
       (world_with Missing Missing None false)).1 ≠ Ret true
  ∧ blocklist_json
      (disk (addToBlocklist Number_of_digits (js "5")
               (world_with Missing Missing None false)).2) = Missing.
Proof.
  split.
  { exists (inject_Z 5), 5%Z. split; [reflexivity|]. split; [lia|reflexivity]. }
  split; [cbn; set_solver|].
  split; [vm_compute; reflexivity|].
  split; [vm_compute; discriminate|].
  vm_compute. reflexivity.
Qed.

(** * Further properties of [index.js] *)

(** ** The cache and the files *)

Lemma loadBlocklist_view (w w' : World) :
  blocklist_view w = blocklist_view w' →
  (loadBlocklist w).1 = (loadBlocklist w').1
  ∧ blocklist_view (loadBlocklist w).2 = blocklist_view (loadBlocklist w').2.
Proof.
  unfold blocklist_view, loadBlocklist. intros [= E1 E2 E3]. rewrite E1, E2, E3.
  destruct (blocklist_json (disk w')) as [|m body] eqn:Ef; [by cbn; rewrite E1, Ef|].
  destruct (blocklistCache (cache w')) as [cached|] eqn:Ec.
  - destruct (m <=? _)%Z; [by cbn; rewrite E1, E2, E3, Ef, Ec|].
    destruct (read_list m body). by cbn; rewrite E1, Ef.
  - destruct (read_list m body). by cbn; rewrite E1, Ef.
Qed.

Lemma loadAllowlist_view (w w' : World) :
  allowlist_view w = allowlist_view w' →
  (loadAllowlist w).1 = (loadAllowlist w').1
  ∧ allowlist_view (loadAllowlist w).2 = allowlist_view (loadAllowlist w').2.
Proof.
  unfold allowlist_view, loadAllowlist. intros [= E1 E2 E3]. rewrite E1, E2, E3.
  destruct (allowlist_json (disk w')) as [|m body] eqn:Ef; [by cbn; rewrite E1, Ef|].
  destruct (allowlistCache (cache w')) as [cached|] eqn:Ec.
  - destruct (m <=? _)%Z; [by cbn; rewrite E1, E2, E3, Ef, Ec|].
    destruct (read_list m body). by cbn; rewrite E1, Ef.
  - destruct (read_list m body). by cbn; rewrite E1, Ef.
Qed.

Lemma loadAllowlist_keeps_blocklist_view (w : World) :
  blocklist_view (loadAllowlist w).2 = blocklist_view w.
Proof.
  destruct (loadAllowlist w) as [l w1] eqn:E.
  apply loadAllowlist_effect in E as (_ & Hd & _ & Hc & Hm & _).
  unfold blocklist_view. simpl. by rewrite Hd, Hc, Hm.
Qed.

Lemma loadBlocklist_keeps_allowlist_view (w : World) :
  allowlist_view (loadBlocklist w).2 = allowlist_view w.
Proof.
  destruct (loadBlocklist w) as [l w1] eqn:E.
  apply loadBlocklist_effect in E as (_ & Hd & _ & Hc & Hm & _).
  unfold allowlist_view. simpl. by rewrite Hd, Hc, Hm.
Qed.

(** A second load finds what the first one left and changes nothing. *)
Lemma loadBlocklist_again (w : World) :
  loadBlocklist (loadBlocklist w).2 = loadBlocklist w.
Proof.
  unfold loadBlocklist at 2 3.
  destruct (blocklist_json (disk w)) as [|m body] eqn:Ef.
  - unfold loadBlocklist. cbn. by rewrite Ef.
  - destruct (blocklistCache (cache w)) as [cached|] eqn:Ec.
    + destruct (m <=? blocklistLastModified (cache w))%Z eqn:El.
      * unfold loadBlocklist. cbn. by rewrite Ef, Ec, El.
      * unfold loadBlocklist. destruct body; cbn; rewrite Ef; cbn;
          rewrite ?Z.leb_refl; try done.
        by destruct (m <=? 0)%Z.
    + unfold loadBlocklist. destruct body; cbn; rewrite Ef; cbn;
        rewrite ?Z.leb_refl; try done.
      by destruct (m <=? 0)%Z.
Qed.

Lemma loadAllowlist_again (w : World) :
  loadAllowlist (loadAllowlist w).2 = loadAllowlist w.
Proof.
  unfold loadAllowlist at 2 3.
  destruct (allowlist_json (disk w)) as [|m body] eqn:Ef.
  - unfold loadAllowlist. cbn. by rewrite Ef.
  - destruct (allowlistCache (cache w)) as [cached|] eqn:Ec.
    + destruct (m <=? allowlistLastModified (cache w))%Z eqn:El.
      * unfold loadAllowlist. cbn. by rewrite Ef, Ec, El.
      * unfold loadAllowlist. destruct body; cbn; rewrite Ef; cbn;
          rewrite ?Z.leb_refl; try done.
        by destruct (m <=? 0)%Z.
    + unfold loadAllowlist. destruct body; cbn; rewrite Ef; cbn;
        rewrite ?Z.leb_refl; try done.
      by destruct (m <=? 0)%Z.
Qed.

(** What [saveBlocklist] leaves is what [loadBlocklist] finds. *)
Lemma loadBlocklist_saved (l : list jsstring) (w0 : World) :
  loadBlocklist
    (with_cache (set_blocklistCache l (clock (disk w0)))
       (with_disk (write_blocklist_json l) w0))
  = (l, with_cache (set_blocklistCache l (clock (disk w0)))
          (with_disk (write_blocklist_json l) w0)).
Proof. unfold loadBlocklist. cbn. by rewrite Z.leb_refl. Qed.

Lemma loadAllowlist_saved (l : list jsstring) (w0 : World) :
  loadAllowlist
    (with_cache (set_allowlistCache l (clock (disk w0)))
       (with_disk (write_allowlist_json l) w0))
  = (l, with_cache (set_allowlistCache l (clock (disk w0)))
          (with_disk (write_allowlist_json l) w0)).
Proof. unfold loadAllowlist. cbn. by rewrite Z.leb_refl. Qed.

(** Loading twice is loading once, and loading one list does not change
    what loading the other gives. *)
Theorem loads_idempotent_and_independent (w : World) :
  loadBlocklist (loadBlocklist w).2 = loadBlocklist w
  ∧ loadAllowlist (loadAllowlist w).2 = loadAllowlist w
  ∧ (loadBlocklist (loadAllowlist w).2).1 = (loadBlocklist w).1
  ∧ (loadAllowlist (loadBlocklist w).2).1 = (loadAllowlist w).1.
Proof.
  split; [apply loadBlocklist_again|]. split; [apply loadAllowlist_again|].
  split.
  - apply loadBlocklist_view, loadAllowlist_keeps_blocklist_view.
  - apply loadAllowlist_view, loadBlocklist_keeps_allowlist_view.
Qed.

(** Saving a list and loading it gives the list back, whatever the file
    and the cache held before: the file holds it, and the cache is in
    step with the file. *)
Theorem save_then_load (l : list jsstring) (w : World) :
  writable (disk w) = true →
  (∃ w', saveBlocklist l w = (Ret tt, w')
         ∧ loadBlocklist w' = (l, w')
         ∧ blocklist_json (disk w') = Present (clock (disk w)) (ArrayOf l)
         ∧ allowlist_view w' = allowlist_view w)
  ∧ (∃ w', saveAllowlist l w = (Ret tt, w')
           ∧ loadAllowlist w' = (l, w')
           ∧ allowlist_json (disk w') = Present (clock (disk w)) (ArrayOf l)
           ∧ blocklist_view w' = blocklist_view w).
Proof.
  intros Hw. split.
  - unfold saveBlocklist. rewrite Hw. eexists. split; [reflexivity|].
    split; [apply loadBlocklist_saved|]. done.
  - unfold saveAllowlist. rewrite Hw. eexists. split; [reflexivity|].
    split; [apply loadAllowlist_saved|]. done.
Qed.

(** ** Removing from the lists *)

Lemma filter_length_le {A} (p : A → bool) (l : list A) :
  (length (List.filter p l) ≤ length l)%nat.
Proof.
  induction l as [|x l IH]; cbn; [lia|]. destruct (p x); cbn; lia.
Qed.

(** The length test of [removeFromBlocklist] is a membership test. *)
Lemma removal_shortens (u : jsstring) (l : list jsstring) :
  (length (List.filter (fun id => negb (bool_decide (id = u))) l) <? length l)%nat
  = bool_decide (u ∈ l).
Proof.
  induction l as [|x l IH]; [done|].
  cbn [List.filter length].
  pose proof (filter_length_le (fun id => negb (bool_decide (id = u))) l) as Hle.
  destruct (decide (x = u)) as [->|Hne].
  - rewrite bool_decide_eq_true_2 by done. cbn [negb].
    rewrite (bool_decide_eq_true_2 (u ∈ u :: l)) by (apply elem_of_cons; by left).
    apply Nat.ltb_lt. lia.
  - rewrite bool_decide_eq_false_2 by done. cbn [negb length].
    change (S ?a <? S ?b)%nat with (a <? b)%nat. rewrite IH.
    apply bool_decide_ext. rewrite elem_of_cons. intuition congruence.
Qed.

Lemma removed_is_gone (u : jsstring) (l : list jsstring) :
  (u ∉ List.filter (fun id => negb (bool_decide (id = u))) l)
  ∧ ∀ x, x ≠ u →
      (x ∈ List.filter (fun id => negb (bool_decide (id = u))) l ↔ x ∈ l).
Proof.
  split.
  - rewrite list_elem_of_In, List.filter_In.
    intros [_ H]. by rewrite bool_decide_eq_true_2 in H.
  - intros x Hx. rewrite (list_elem_of_In _ x), List.filter_In, <- list_elem_of_In.
    rewrite bool_decide_eq_false_2 by done. cbn. tauto.
Qed.

Lemma removeFromBlocklist_eq (u : jsstring) (w w1 : World) (l : list jsstring) :
  loadBlocklist w = (l, w1) →
  removeFromBlocklist u w
  = if bool_decide (u ∈ l) then
      if writable (disk w1) then
        (Ret true,
         with_cache (set_blocklistCache
                       (List.filter (fun id => negb (bool_decide (id = u))) l)
                       (clock (disk w1)))
           (with_disk (write_blocklist_json
                         (List.filter (fun id => negb (bool_decide (id = u))) l)) w1))
      else (Throw FailedToSaveBlocklist, w1)
    else (Ret false, w1).
Proof.
  intros Hl. unfold removeFromBlocklist. unfold bind at 1. unfold lift.
  rewrite Hl, removal_shortens.
  destruct (bool_decide (u ∈ l)); [|done].
  unfold bind, saveBlocklist, ret. by destruct (writable (disk w1)).
Qed.

Lemma removeFromAllowlist_eq (u : jsstring) (w w1 : World) (l : list jsstring) :
  loadAllowlist w = (l, w1) →
  removeFromAllowlist u w
  = if bool_decide (u ∈ l) then
      if writable (disk w1) then
        (Ret true,
         with_cache (set_allowlistCache
                       (List.filter (fun id => negb (bool_decide (id = u))) l)
                       (clock (disk w1)))
           (with_disk (write_allowlist_json
                         (List.filter (fun id => negb (bool_decide (id = u))) l)) w1))
      else (Throw FailedToSaveAllowlist, w1)
    else (Ret false, w1).
Proof.
  intros Hl. unfold removeFromAllowlist. unfold bind at 1. unfold lift.
  rewrite Hl, removal_shortens.
  destruct (bool_decide (u ∈ l)); [|done].
  unfold bind, saveAllowlist, ret. by destruct (writable (disk w1)).
Qed.

(** [removeFromBlocklist] and [removeFromAllowlist] return [true] exactly
    when the id is in the loaded list (and the file can be written): the
    file then holds the list without any occurrence of the id, the other
    entries in their order.  An id that is not there gives [false] and no
    write; a failing write gives 'Failed to save ...' and leaves the
    file.  No id is refused as invalid. *)
Theorem removeFrom_lists_behaviour (userId : jsstring) (w : World) :
  (let (l, w1) := loadBlocklist w in
   let kept := List.filter (fun id => negb (bool_decide (id = userId))) l in
   (userId ∉ kept) ∧ (∀ x, x ≠ userId → (x ∈ kept ↔ x ∈ l))
   ∧ if bool_decide (userId ∈ l) then
       if writable (disk w) then
         ∃ w2, removeFromBlocklist userId w = (Ret true, w2)
               ∧ blocklist_json (disk w2) = Present (clock (disk w)) (ArrayOf kept)
               ∧ allowlist_json (disk w2) = allowlist_json (disk w)
       else removeFromBlocklist userId w = (Throw FailedToSaveBlocklist, w1)
            ∧ disk w1 = disk w
     else removeFromBlocklist userId w = (Ret false, w1) ∧ disk w1 = disk w)
  ∧ (let (l, w1) := loadAllowlist w in
     let kept := List.filter (fun id => negb (bool_decide (id = userId))) l in
     (userId ∉ kept) ∧ (∀ x, x ≠ userId → (x ∈ kept ↔ x ∈ l))
     ∧ if bool_decide (userId ∈ l) then
         if writable (disk w) then
           ∃ w2, removeFromAllowlist userId w = (Ret true, w2)
                 ∧ allowlist_json (disk w2) = Present (clock (disk w)) (ArrayOf kept)
                 ∧ blocklist_json (disk w2) = blocklist_json (disk w)
         else removeFromAllowlist userId w = (Throw FailedToSaveAllowlist, w1)
              ∧ disk w1 = disk w
       else removeFromAllowlist userId w = (Ret false, w1) ∧ disk w1 = disk w).
Proof.
  split.
  - destruct (loadBlocklist w) as [l w1] eqn:El.
    destruct (loadBlocklist_effect _ _ _ El) as (_ & Hd & _).
    rewrite (removeFromBlocklist_eq userId w w1 l El), Hd.
    destruct (removed_is_gone userId l) as [Hgone Hkept].
    split; [done|]. split; [done|].
    destruct (bool_decide (userId ∈ l)); [|done].
    destruct (writable (disk w)); [|done].
    eexists. split; [reflexivity|]. cbn. by rewrite Hd.
  - destruct (loadAllowlist w) as [l w1] eqn:El.
    destruct (loadAllowlist_effect _ _ _ El) as (_ & Hd & _).
    rewrite (removeFromAllowlist_eq userId w w1 l El), Hd.
    destruct (removed_is_gone userId l) as [Hgone Hkept].
    split; [done|]. split; [done|].
    destruct (bool_decide (userId ∈ l)); [|done].
    destruct (writable (disk w)); [|done].
    eexists. split; [reflexivity|]. cbn. by rewrite Hd.
Qed.

(** ** How the list commands and the filter work together *)

Lemma filterUsers_kept_by (users : list Member) (w : World) :
  filterUsers users w
  = (Ret (List.filter (kept_by (loadAllowlist w).1 (loadBlocklist w).1) users),
     (loadBlocklist (loadAllowlist w).2).2).
Proof.
  destruct (loadAllowlist w) as [A w1] eqn:EA.
  destruct (loadBlocklist w1) as [B w2] eqn:EB.
  rewrite (filterUsers_eq users w w1 w2 A B EA EB). cbn [fst snd].
  assert ((loadBlocklist w).1 = B) as ->.
  { pose proof (loadBlocklist_view w1 w) as [H _].
    - pose proof (loadAllowlist_keeps_blocklist_view w) as Hv.
      by rewrite EA in Hv.
    - by rewrite EB in H. }
  f_equal; [|by rewrite EB]. f_equal.
  apply filter_ext_bool. intros m. unfold kept_by.
  destruct A as [|a A]; cbn [length Nat.ltb Nat.leb andb].
  - f_equal. apply bool_decide_ext. by rewrite elem_of_list_to_set.
  - rewrite (bool_decide_ext _ (String_of_number (id m) ∈ a :: A))
      by (by rewrite elem_of_list_to_set).
    destruct (bool_decide (String_of_number (id m) ∈ a :: A)); cbn [negb andb];
      [|done].
    f_equal. apply bool_decide_ext. by rewrite elem_of_list_to_set.
Qed.

Lemma filter_remove_appended (x : jsstring) (l : list jsstring) :
  x ∉ l → List.filter (fun id => negb (bool_decide (id = x))) (l ++ [x]) = l.
Proof.
  induction l as [|y l IH]; intros Hx; cbn.
  - by rewrite bool_decide_eq_true_2.
  - rewrite not_elem_of_cons in Hx. destruct Hx as [Hne Hx].
    rewrite bool_decide_eq_false_2 by done. cbn. by rewrite IH.
Qed.

(** Adding a new id and removing it again leaves the list as it was
    loaded, in the file and for the next load; both calls return
    [true]. *)
Theorem add_then_remove_restores
    (Number : jsstring → JsNumber) (userId : jsstring) (w : World) :
  isValidUserId Number userId = true →
  writable (disk w) = true →
  (∀ l w1, loadBlocklist w = (l, w1) → userId ∉ l →
     ∃ w2 w3,
       addToBlocklist Number userId w = (Ret true, w2)
       ∧ removeFromBlocklist userId w2 = (Ret true, w3)
       ∧ blocklist_json (disk w3) = Present (clock (disk w)) (ArrayOf l)
       ∧ loadBlocklist w3 = (l, w3))
  ∧ (∀ l w1, loadAllowlist w = (l, w1) → userId ∉ l →
       ∃ w2 w3,
         addToAllowlist Number userId w = (Ret true, w2)
         ∧ removeFromAllowlist userId w2 = (Ret true, w3)
         ∧ allowlist_json (disk w3) = Present (clock (disk w)) (ArrayOf l)
         ∧ loadAllowlist w3 = (l, w3)).
Proof.
  intros Hv Hw. split.
  - intros l w1 Hl Hx.
    destruct (loadBlocklist_effect _ _ _ Hl) as (_ & Hd & _).
    assert (writable (disk w1) = true) as Hw1 by (by rewrite Hd).
    rewrite (addToBlocklist_valid Number userId w w1 l Hv Hl).
    rewrite bool_decide_eq_false_2 by done. rewrite Hw1.
    set (w2 := with_cache (set_blocklistCache (l ++ [userId]) (clock (disk w1)))
                 (with_disk (write_blocklist_json (l ++ [userId]))
                    (with_cache (push_blocklist userId) w1))).
    exists w2, (with_cache (set_blocklistCache l (clock (disk w2)))
                  (with_disk (write_blocklist_json l) w2)).
    split; [reflexivity|].
    rewrite (removeFromBlocklist_eq userId w2 w2 (l ++ [userId]))
      by apply (loadBlocklist_saved (l ++ [userId]) (with_cache (push_blocklist userId) w1)).
    rewrite bool_decide_eq_true_2 by (apply elem_of_app; right; by apply list_elem_of_singleton).
    rewrite filter_remove_appended by done.
    assert (writable (disk w2) = true) as -> by (by cbn).
    split; [reflexivity|]. split; [by cbn; rewrite Hd|].
    apply (loadBlocklist_saved l).
  - intros l w1 Hl Hx.
    destruct (loadAllowlist_effect _ _ _ Hl) as (_ & Hd & _).
    assert (writable (disk w1) = true) as Hw1 by (by rewrite Hd).
    rewrite (addToAllowlist_valid Number userId w w1 l Hv Hl).
    rewrite bool_decide_eq_false_2 by done. rewrite Hw1.
    set (w2 := with_cache (set_allowlistCache (l ++ [userId]) (clock (disk w1)))
                 (with_disk (write_allowlist_json (l ++ [userId]))
                    (with_cache (push_allowlist userId) w1))).
    exists w2, (with_cache (set_allowlistCache l (clock (disk w2)))
                  (with_disk (write_allowlist_json l) w2)).
    split; [reflexivity|].
    rewrite (removeFromAllowlist_eq userId w2 w2 (l ++ [userId]))
      by apply (loadAllowlist_saved (l ++ [userId]) (with_cache (push_allowlist userId) w1)).
    rewrite bool_decide_eq_true_2 by (apply elem_of_app; right; by apply list_elem_of_singleton).
    rewrite filter_remove_appended by done.
    assert (writable (disk w2) = true) as -> by (by cbn).
    split; [reflexivity|]. split; [by cbn; rewrite Hd|].
    apply (loadAllowlist_saved l).
Qed.

Lemma kept_by_block_appended (A B : list jsstring) (x : jsstring) (m : Member) :
  kept_by A (B ++ [x]) m
  = kept_by A B m && negb (bool_decide (String_of_number (id m) = x)).
Proof.
  unfold kept_by. rewrite <- andb_assoc. f_equal.
  rewrite <- negb_orb. f_equal.
  apply eq_true_iff_eq. rewrite orb_true_iff, !bool_decide_eq_true.
  rewrite elem_of_app, list_elem_of_singleton. done.
Qed.

Lemma kept_by_first_allowed (B : list jsstring) (x : jsstring) (m : Member) :
  kept_by [x] B m
  = kept_by [] B m && bool_decide (String_of_number (id m) = x).
Proof.
  unfold kept_by. cbn [andb]. rewrite andb_comm. f_equal.
  apply bool_decide_ext. apply list_elem_of_singleton.
Qed.

(** After [loadBlocklist] has read a well-formed file, the cache is not
    older than the file. *)
Lemma loadBlocklist_in_step (w w1 : World) (l l0 : list jsstring) (m : Z) :
  blocklist_json (disk w) = Present m (ArrayOf l0) →
  loadBlocklist w = (l, w1) →
  blocklistCache (cache w1) = Some l
  ∧ (m ≤ blocklistLastModified (cache w1))%Z.
Proof.
  unfold loadBlocklist. intros ->.
  destruct (blocklistCache (cache w)) as [cached|] eqn:Ec.
  - destruct (m <=? _)%Z eqn:El.
    + intros [= <- <-]. split; [done|]. by apply Z.leb_le.
    + intros [= <- <-]. cbn. split; [done|lia].
  - intros [= <- <-]. cbn. split; [done|lia].
Qed.

(** A successful [/block_user] shows in the next filter: the users kept
    are the ones kept before, without those whose id is the new entry. *)
Theorem block_takes_effect
    (Number : jsstring → JsNumber) (userId : jsstring) (w : World)
    (users : list Member) :
  isValidUserId Number userId = true →
  writable (disk w) = true →
  userId ∉ (loadBlocklist w).1 →
  ∃ w2 before,
    addToBlocklist Number userId w = (Ret true, w2)
    ∧ (filterUsers users w).1 = Ret before
    ∧ (filterUsers users w2).1
      = Ret (List.filter
               (fun m => negb (bool_decide (String_of_number (id m) = userId)))
               before).
Proof.
  intros Hv Hw Hx.
  destruct (loadBlocklist w) as [l w1] eqn:Hl. cbn [fst] in Hx.
  destruct (loadBlocklist_effect _ _ _ Hl) as (_ & Hd & _ & Hac & Ham & _).
  rewrite (addToBlocklist_valid Number userId w w1 l Hv Hl).
  rewrite bool_decide_eq_false_2 by done.
  assert (writable (disk w1) = true) as -> by (by rewrite Hd).
  set (w2 := with_cache _ _).
  exists w2, (List.filter (kept_by (loadAllowlist w).1 l) users).
  split; [done|].
  rewrite !filterUsers_kept_by. cbn [fst]. rewrite Hl. cbn [fst].
  split; [done|].
  assert ((loadAllowlist w2).1 = (loadAllowlist w).1) as ->.
  { apply loadAllowlist_view. unfold allowlist_view. subst w2. cbn.
    unfold push_blocklist.
    destruct (blocklistCache (cache w1)); cbn; by rewrite Hd, Hac, Ham. }
  assert ((loadBlocklist w2).1 = l ++ [userId]) as ->.
  { subst w2.
    exact (f_equal fst (loadBlocklist_saved (l ++ [userId])
                          (with_cache (push_blocklist userId) w1))). }
  rewrite filter_filter_andb. f_equal. apply filter_ext_bool.
  intros m. apply kept_by_block_appended.
Qed.

(** A failed save is not undone in memory.  When the blocklist file is
    well formed and cannot be written, [addToBlocklist] throws and the
    file is as it was, yet the id has been pushed onto the cached array:
    the next load returns the list with the id, and the filter drops the
    users with that id. *)
Theorem failed_save_still_blocks
    (Number : jsstring → JsNumber) (userId : jsstring) (w : World)
    (users : list Member) (m : Z) (l0 : list jsstring) :
  isValidUserId Number userId = true →
  writable (disk w) = false →
  blocklist_json (disk w) = Present m (ArrayOf l0) →
  userId ∉ (loadBlocklist w).1 →
  ∃ w2 before,
    addToBlocklist Number userId w = (Throw FailedToSaveBlocklist, w2)
    ∧ blocklist_json (disk w2) = Present m (ArrayOf l0)
    ∧ (loadBlocklist w2).1 = (loadBlocklist w).1 ++ [userId]
    ∧ (filterUsers users w).1 = Ret before
    ∧ (filterUsers users w2).1
      = Ret (List.filter
               (fun m => negb (bool_decide (String_of_number (id m) = userId)))
               before).
Proof.
  intros Hv Hw Hfile Hx.
  destruct (loadBlocklist w) as [l w1] eqn:Hl. cbn [fst] in *.
  destruct (loadBlocklist_effect _ _ _ Hl) as (_ & Hd & _ & Hac & Ham & _).
  destruct (loadBlocklist_in_step w w1 l l0 m Hfile Hl) as [Hc Hm].
  rewrite (addToBlocklist_valid Number userId w w1 l Hv Hl).
  rewrite bool_decide_eq_false_2 by done.
  assert (writable (disk w1) = false) as -> by (by rewrite Hd).
  set (w2 := with_cache (push_blocklist userId) w1).
  assert (loadBlocklist w2 = (l ++ [userId], w2)) as Hl2.
  { unfold loadBlocklist. subst w2. cbn [disk cache with_cache].
    rewrite Hd, Hfile. unfold push_blocklist. rewrite Hc. cbn.
    by apply Z.leb_le in Hm as ->. }
  exists w2, (List.filter (kept_by (loadAllowlist w).1 l) users).
  split; [done|]. split; [by subst w2; cbn; rewrite Hd|].
  split; [by rewrite Hl2|].
  rewrite !filterUsers_kept_by. cbn [fst]. rewrite Hl, Hl2. cbn [fst].
  split; [done|].
  assert ((loadAllowlist w2).1 = (loadAllowlist w).1) as ->.
  { apply loadAllowlist_view. unfold allowlist_view. subst w2. cbn.
    unfold push_blocklist. rewrite Hc. cbn. by rewrite Hd, Hac, Ham. }
  rewrite filter_filter_andb. f_equal. apply filter_ext_bool.
  intros m'. apply kept_by_block_appended.
Qed.

(** The first entry switches the allowlist on: after a successful
    [/allow_user] on an empty allowlist the filter keeps, of the users it
    kept before, only those whose id is the new entry. *)
Theorem first_allowed_id_narrows
    (Number : jsstring → JsNumber) (userId : jsstring) (w : World)
    (users : list Member) :
  isValidUserId Number userId = true →
  writable (disk w) = true →
  (loadAllowlist w).1 = [] →
  ∃ w2 before,
    addToAllowlist Number userId w = (Ret true, w2)
    ∧ (filterUsers users w).1 = Ret before
    ∧ (filterUsers users w2).1
      = Ret (List.filter
               (fun m => bool_decide (String_of_number (id m) = userId))
               before).
Proof.
  intros Hv Hw He.
  destruct (loadAllowlist w) as [l w1] eqn:Hl. cbn [fst] in He. subst l.
  destruct (loadAllowlist_effect _ _ _ Hl) as (_ & Hd & _ & Hbc & Hbm & _).
  rewrite (addToAllowlist_valid Number userId w w1 [] Hv Hl).
  rewrite bool_decide_eq_false_2 by apply not_elem_of_nil.
  assert (writable (disk w1) = true) as -> by (by rewrite Hd).
  set (w2 := with_cache _ _).
  exists w2, (List.filter (kept_by [] (loadBlocklist w).1) users).
  split; [done|].
  rewrite !filterUsers_kept_by. cbn [fst]. rewrite Hl. cbn [fst].
  split; [done|].
  assert ((loadBlocklist w2).1 = (loadBlocklist w).1) as ->.
  { apply loadBlocklist_view. unfold blocklist_view. subst w2. cbn.
    unfold push_allowlist.
    destruct (allowlistCache (cache w1)); cbn; by rewrite Hd, Hbc, Hbm. }
  assert ((loadAllowlist w2).1 = [userId]) as ->.
  { subst w2.
    exact (f_equal fst (loadAllowlist_saved ([] ++ [userId])
                          (with_cache (push_allowlist userId) w1))). }
  rewrite filter_filter_andb. f_equal. apply filter_ext_bool.
  intros m. apply kept_by_first_allowed.
Qed.

Lemma loads_commute (w : World) :
  (loadAllowlist (loadBlocklist w).2).2 = (loadBlocklist (loadAllowlist w).2).2.
Proof.
  unfold loadAllowlist, loadBlocklist.
  destruct w as [[bj aj t p wr cl] [bc ac bl al] cn ca en tr]. cbn.
  destruct bj as [|mb bb], aj as [|ma ab], bc as [cb|], ac as [cc|]; cbn;
    try destruct bb; try destruct ab; cbn;
    try (destruct (mb <=? bl)%Z eqn:Eb); try (destruct (ma <=? al)%Z eqn:Ea);
    cbn; try rewrite Eb; try rewrite Ea; cbn; try rewrite Eb; try rewrite Ea;
    reflexivity.
Qed.

Lemma filter_sublist {A} (p : A → bool) (l : list A) :
  List.filter p l `sublist_of` l.
Proof.
  induction l as [|x l IH]; cbn; [constructor|].
  destruct (p x); by constructor.
Qed.

Lemma filter_twice {A} (p : A → bool) (l : list A) :
  List.filter p (List.filter p l) = List.filter p l.
Proof.
  rewrite filter_filter_andb. apply filter_ext_bool. intros x. by destruct (p x).
Qed.

(** The filter only drops users: what it returns is a sublist of what it
    was given, in the same order.  Filtering the result again, in the
    world the first call left, returns it unchanged and leaves that world
    as it is. *)
Theorem filterUsers_sublist_and_stable (users : list Member) (w : World) :
  ∃ r w',
    filterUsers users w = (Ret r, w')
    ∧ r `sublist_of` users
    ∧ filterUsers r w' = (Ret r, w').
Proof.
  eexists _, _. split; [apply filterUsers_kept_by|].
  split; [apply filter_sublist|].
  set (w1 := (loadAllowlist w).2). set (w' := (loadBlocklist w1).2).
  rewrite filterUsers_kept_by.
  assert (loadAllowlist w1 = loadAllowlist w) as Ha by apply loadAllowlist_again.
  assert (loadBlocklist w' = loadBlocklist w1) as Hb by apply loadBlocklist_again.
  assert ((loadAllowlist w').2 = w') as Hw'.
  { subst w'. rewrite loads_commute. unfold w1 at 2. by rewrite Ha. }
  assert ((loadAllowlist w').1 = (loadAllowlist w).1) as ->.
  { rewrite <- Ha. apply loadAllowlist_view.
    subst w'. apply loadBlocklist_keeps_allowlist_view. }
  assert ((loadBlocklist w').1 = (loadBlocklist w).1) as ->.
  { rewrite Hb. apply loadBlocklist_view.
    subst w1. apply loadAllowlist_keeps_blocklist_view. }
  rewrite Hw', Hb, filter_twice. reflexivity.
Qed.

Lemma kept_by_no_block (A : list jsstring) (users : list Member) :
  List.filter (kept_by A []) users = allow_gate (list_to_set A) users.
Proof.
  unfold allow_gate, kept_by.
  destruct (decide ((list_to_set A : gset jsstring) = ∅)) as [E|NE].
  - apply list_to_set_nil_iff in E. subst A. cbn.
    rewrite <- (filter_true users) at 2. apply filter_ext_bool.
    intros m. by rewrite bool_decide_eq_false_2 by apply not_elem_of_nil.
  - destruct A as [|a A]; [by destruct NE|].
    apply filter_ext_bool. intros m.
    rewrite (bool_decide_eq_false_2 (_ ∈ [])) by apply not_elem_of_nil.
    rewrite andb_true_r. apply bool_decide_ext. by rewrite elem_of_list_to_set.
Qed.

Lemma kept_by_no_allow (B : list jsstring) (users : list Member) :
  List.filter (kept_by [] B) users = block_removal (list_to_set B) users.
Proof.
  unfold block_removal, kept_by. apply filter_ext_bool. intros m. cbn.
  f_equal. apply bool_decide_ext. by rewrite elem_of_list_to_set.
Qed.

(** [/clear_blocklist] and [/clear_allowlist].  When the write succeeds
    the list loads as empty afterwards and the filter is left with the
    other list alone: allow-gating without block removal, or block
    removal on all users.  When the write fails the handler is left by
    the exception 'Failed to save ...': it does not answer, and nothing
    has changed. *)
Theorem clear_commands (ADMIN_IDS : list Z) (from_id : Z) (w : World)
    (users : list Member) :
  isAdmin ADMIN_IDS from_id = true →
  (writable (disk w) = true →
     (∃ w', clear_blocklist_command ADMIN_IDS from_id w = (Ret BlocklistCleared, w')
            ∧ loadBlocklist w' = ([], w')
            ∧ (filterUsers users w').1
              = Ret (allow_gate (list_to_set (loadAllowlist w).1) users))
     ∧ (∃ w', clear_allowlist_command ADMIN_IDS from_id w = (Ret AllowlistCleared, w')
              ∧ loadAllowlist w' = ([], w')
              ∧ (filterUsers users w').1
                = Ret (block_removal (list_to_set (loadBlocklist w).1) users)))
  ∧ (writable (disk w) = false →
       clear_blocklist_command ADMIN_IDS from_id w = (Throw FailedToSaveBlocklist, w)
       ∧ clear_allowlist_command ADMIN_IDS from_id w = (Throw FailedToSaveAllowlist, w)).
Proof.
  intros Hadmin.
  unfold clear_blocklist_command, clear_allowlist_command. rewrite Hadmin. cbn [negb].
  unfold bind, saveBlocklist, saveAllowlist, ret.
  split; intros Hw; rewrite Hw; [|done].
  split.
  - eexists. split; [reflexivity|].
    split; [apply loadBlocklist_saved|].
    rewrite filterUsers_kept_by. cbn [fst].
    rewrite (loadBlocklist_saved [] w). cbn [fst].
    assert ((loadAllowlist (with_cache (set_blocklistCache [] (clock (disk w)))
                              (with_disk (write_blocklist_json []) w))).1
            = (loadAllowlist w).1) as -> by (by apply loadAllowlist_view).
    by rewrite kept_by_no_block.
  - eexists. split; [reflexivity|].
    split; [apply loadAllowlist_saved|].
    rewrite filterUsers_kept_by. cbn [fst].
    rewrite (loadAllowlist_saved [] w). cbn [fst].
    assert ((loadBlocklist (with_cache (set_allowlistCache [] (clock (disk w)))
                              (with_disk (write_allowlist_json []) w))).1
            = (loadBlocklist w).1) as -> by (by apply loadBlocklist_view).
    by rewrite kept_by_no_allow.
Qed.

(** ** The two versions of the filter *)

(** With nothing cached yet, the cached one-pass [filterUsers] returns
    what the earlier version computes from the files in two passes with
    [isAllowed] and [isBlocked]. *)
Theorem filterUsers_agrees_with_uncached (users : list Member) (w : World) :
  blocklistCache (cache w) = None →
  allowlistCache (cache w) = None →
  (filterUsers users w).1 = Ret (Uncached.filterUsers (disk w) users).
Proof.
  intros Hb Ha. rewrite filterUsers_kept_by. cbn [fst]. f_equal.
  assert ((loadAllowlist w).1 = Uncached.loadAllowlist (disk w)) as ->.
  { unfold loadAllowlist, Uncached.loadAllowlist. rewrite Ha.
    destruct (allowlist_json (disk w)) as [|m [| |l]]; reflexivity. }
  assert ((loadBlocklist w).1 = Uncached.loadBlocklist (disk w)) as ->.
  { unfold loadBlocklist, Uncached.loadBlocklist. rewrite Hb.
    destruct (blocklist_json (disk w)) as [|m [| |l]]; reflexivity. }
  unfold Uncached.filterUsers, Uncached.isAllowed, Uncached.isBlocked, kept_by.
  destruct (Uncached.loadAllowlist (disk w)) as [|a A]; cbn [length Nat.ltb Nat.leb].
  - by apply filter_ext_bool.
  - rewrite filter_filter_andb. by apply filter_ext_bool.
Qed.

(** ** What the enumeration leaves on disk *)

(** The loop only throws what a request threw. *)
Lemma gather_loop_throws
    (provider : nat → jsstring → Z → Z → ApiError + Page) (gid : jsstring)
    (fuel : nat) :
  ∀ (members : list Member) (offset : Z) (tot : option Z) (w w' : World) (e : Error),
  gather_loop provider fuel gid members offset tot w = (Throw e, w') →
  ∃ e', e = FromApi e'.
Proof.
  induction fuel as [|fuel IH]; intros members offset tot w w' e; [done|].
  cbn [gather_loop]. unfold bind at 1, getMembers.
  destruct (provider _ _ _ _) as [e'|data]; [intros [= <- _]; by eexists|].
  destruct (_ <=? _)%Z; [done|]. apply IH.
Qed.

(** [peer_list.json] is written only by an enumeration that succeeds, and
    then holds exactly the list returned.  An enumeration that fails
    writes nothing, and what it throws is always 'Failed to gather user
    IDs: ...' around the cause. *)
Theorem gatherUserIds_writes_all_or_nothing
    (provider : nat → jsstring → Z → Z → ApiError + Page)
    (gid : jsstring) (fuel : nat) (w : World) :
  match gatherUserIds provider fuel gid w with
  | (Ret members, w') =>
      writable (disk w) = true
      ∧ disk w' = write_peer_list_json members (disk w)
  | (Throw e, w') =>
      disk w' = disk w
      ∧ ∃ cause, e = FailedToGather cause
                 ∧ match cause with
                   | FromApi _ => True
                   | WriteFailed => writable (disk w) = false
                   | _ => False
                   end
  | (OutOfFuel, w') => disk w' = disk w
  end.
Proof.
  destruct (gather_loop_world gid provider fuel 0 [] w None) as (m & r & Hrun).
  change (page_size * Z.of_nat 0)%Z with 0%Z in Hrun.
  unfold gatherUserIds, try_catch. unfold bind at 1. rewrite Hrun.
  destruct r as [members|e|].
  - unfold bind, writeFile_peer_list. cbn [after_calls disk].
    destruct (writable (disk w)) eqn:Hw; cbn; [done|].
    split; [done|]. by exists WriteFailed.
  - cbn. split; [done|]. exists e. split; [done|].
    by destruct (gather_loop_throws _ _ _ _ _ _ _ _ _ Hrun) as [e' ->].
  - done.
Qed.

(** ** The random id of a send *)

(** For a clock that is not negative, the random id of a send encodes the
    recipient and the last five digits of the time in milliseconds: the
    recipient is the quotient by 100000.  Two sends get the same random
    id exactly when they go to the same recipient at times that agree
    modulo 100 s. *)
Theorem generateRandomId_decodes (peer_id now : Z) :
  (0 ≤ now)%Z →
  (generateRandomId peer_id now / 100000 = peer_id)%Z
  ∧ (generateRandomId peer_id now mod 100000 = now mod 100000)%Z
  ∧ ∀ peer_id' now', (0 ≤ now')%Z →
      (generateRandomId peer_id now = generateRandomId peer_id' now'
       ↔ peer_id = peer_id' ∧ (now mod 100000 = now' mod 100000)%Z).
Proof.
  intros Hnow. unfold generateRandomId.
  assert (∀ n, (0 ≤ n)%Z → Z.rem n 100000 = (n mod 100000)%Z) as Hrem.
  { intros n Hn. apply Z.rem_mod_nonneg; lia. }
  rewrite (Hrem now Hnow).
  pose proof (Z.mod_pos_bound now 100000 ltac:(lia)) as Hb.
  assert (∀ p r, (0 ≤ r < 100000)%Z →
            ((p * 100000 + r) / 100000 = p ∧ (p * 100000 + r) mod 100000 = r)%Z)
    as Hdec.
  { intros p r Hr. split.
    - rewrite Z.div_add_l by lia. rewrite Z.div_small by lia. lia.
    - rewrite Z.add_comm, Z.mod_add by lia. apply Z.mod_small. lia. }
  destruct (Hdec peer_id (now mod 100000)%Z Hb) as [Hq Hr].
  split; [done|]. split; [done|].
  intros peer_id' now' Hnow'. rewrite (Hrem now' Hnow').
  pose proof (Z.mod_pos_bound now' 100000 ltac:(lia)) as Hb'.
  destruct (Hdec peer_id' (now' mod 100000)%Z Hb') as [Hq' Hr'].
  split.
  - intros E. split.
    + rewrite <- Hq, <- Hq'. by rewrite E.
    + rewrite <- Hr, <- Hr'. by rewrite E.
  - intros [-> ->]. reflexivity.
Qed.

(** ** What a run of [broadcast] changes *)

Lemma send_task_frame messages_send dryRun total task (user : Member) msg (w : World) :
  ∃ r w' evs,
    send_task messages_send dryRun total task user msg w = (r, w')
    ∧ r ≠ OutOfFuel
    ∧ disk w' = disk w ∧ cache w' = cache w
    ∧ trace w' = trace w ++ evs
    ∧ Forall (fun ev => is_reply ev = false) evs.
Proof.
  unfold send_task, try_catch, sendMessage.
  unfold bind at 2. unfold bind at 2.
  destruct dryRun.
  - unfold modify at 1. unfold bind, modify, gets.
    cbn [with_counters log counters set_processed processed].
    destruct (_ || _); (eexists _, _, _; split; [reflexivity|]); cbn;
      rewrite <- ?app_assoc; repeat split; try done; by repeat constructor.
  - destruct (messages_send task 0 (id user) msg) as [err|].
    + unfold bind at 1. unfold modify at 1.
      destruct (throttled (FromApi err)) as [q|].
      * unfold bind, modify. cbn [negb].
        destruct (messages_send task 1 (id user) msg) as [e2|];
          (eexists _, _, _; split; [reflexivity|]); cbn;
          rewrite <- ?app_assoc; repeat split; try done; by repeat constructor.
      * unfold ret. (eexists _, _, _; split; [reflexivity|]); cbn;
          rewrite <- ?app_assoc; repeat split; try done; by repeat constructor.
    + unfold bind, modify, gets.
      cbn [with_counters log counters count_call set_processed processed].
      destruct (_ || _); (eexists _, _, _; split; [reflexivity|]); cbn;
        rewrite <- ?app_assoc; repeat split; try done; by repeat constructor.
Qed.

Lemma onIdle_frame messages_send template dryRun total (users : list Member) :
  ∀ (task : nat) (w : World),
  ∃ w' evs,
    onIdle (tasks_of messages_send template dryRun total task users) w = (Ret tt, w')
    ∧ disk w' = disk w ∧ cache w' = cache w
    ∧ trace w' = trace w ++ evs
    ∧ Forall (fun ev => is_reply ev = false) evs.
Proof.
  induction users as [|user rest IH]; intros task w.
  - exists w, []. cbn. by rewrite app_nil_r.
  - cbn [tasks_of onIdle]. unfold bind at 1, try_catch.
    destruct (send_task_frame messages_send dryRun total task user
                (template (fields_of user)) w)
      as (r & w1 & evs & Hrun & Hr & Hd & Hc & Htr & Hq).
    rewrite Hrun.
    destruct r as [[]|e|]; [| |done].
    + destruct (IH (S task) w1) as (w2 & evs2 & Hrun2 & Hd2 & Hc2 & Htr2 & Hq2).
      rewrite Hrun2. exists w2, (evs ++ evs2).
      split; [done|]. split; [congruence|]. split; [congruence|].
      split; [by rewrite Htr2, Htr, <- app_assoc|]. by apply Forall_app.
    + unfold modify.
      destruct (IH (S task) (log [EvUnhandledRejection (id user) e] w1))
        as (w2 & evs2 & Hrun2 & Hd2 & Hc2 & Htr2 & Hq2).
      rewrite Hrun2. exists w2, (evs ++ EvUnhandledRejection (id user) e :: evs2).
      split; [done|]. split; [by rewrite Hd2; cbn|]. split; [by rewrite Hc2; cbn|].
      split; [rewrite Htr2; cbn; by rewrite Htr, <- !app_assoc|].
      apply Forall_app. split; [done|]. by constructor.
Qed.



(** ** Progress lines and counters *)






(** ** The [/broadcast] command when it gets to send *)


(** ** The [/test_broadcast] command *)

Lemma gatherUserIds_keeps_lists
    (provider : nat → jsstring → Z → Z → ApiError + Page)
    (gid : jsstring) (fuel : nat) (w : World) :
  ∃ (m : nat) (r : Result (list Member)) (w' : World),
    gatherUserIds provider fuel gid w = (r, w')
    ∧ trace w' = trace w ++ requested gid 0 m
    ∧ calls w' = (calls w + m)%nat
    ∧ blocklist_json (disk w') = blocklist_json (disk w)
    ∧ allowlist_json (disk w') = allowlist_json (disk w)
    ∧ broadcast_template_txt (disk w') = broadcast_template_txt (disk w).
Proof.
  destruct (gather_loop_world gid provider fuel 0 [] w None) as (m & r & Hrun).
  change (page_size * Z.of_nat 0)%Z with 0%Z in Hrun.
  unfold gatherUserIds, try_catch. unfold bind at 1. rewrite Hrun.
  destruct r as [members|e|].
  - unfold bind, writeFile_peer_list. cbn [after_calls disk].
    destruct (writable (disk w)); by eexists m, _, _.
  - by eexists m, _, _.
  - by eexists m, _, _.
Qed.

Lemma broadcast_dry_summary messages_send compile tmpl (users : list Member) (w : World) :
  ∃ w' evs,
    broadcast messages_send compile tmpl users true w = (Ret Undefined, w')
    ∧ disk w' = disk w ∧ calls w' = calls w
    ∧ trace w' = trace w ++ evs
    ∧ Forall (fun ev => is_quiet ev = true) evs.
Proof.
  destruct (broadcast_eq messages_send compile tmpl users true w)
    as (filtered & w1 & wp & Hf & Hs & Hb).
  destruct (onIdle_dry messages_send (compile tmpl) (length filtered) filtered 0
              (run_start (length filtered) wp))
    as (w' & evs & Hrun & Htr & Hq & _ & Hc & _).
  destruct (onIdle_frame messages_send (compile tmpl) true (length filtered)
              filtered 0 (run_start (length filtered) wp))
    as (w'' & evs' & Hrun' & Hd & _).
  rewrite Hrun in Hrun'. injection Hrun' as <-.
  rewrite Hrun in Hb. destruct Hs as (Hdisk & _ & Hcalls & _ & Htrace).
  exists w', evs. split; [done|]. split; [by rewrite Hd; cbn|].
  split; [by rewrite Hc; cbn|]. split; [by rewrite Htr; cbn; rewrite Htrace|done].
Qed.

(** Whoever calls it and whatever the files hold, [/test_broadcast] sends
    no message and never waits: its trace is the page requests of the
    enumeration followed by '[DRY RUN]' and progress lines only, its API
    calls are the page requests, and the list files are left as they
    were. *)
Theorem test_broadcast_never_sends
    (GROUP_ID : jsstring) (ADMIN_IDS : list Z)
    (provider : nat → jsstring → Z → Z → ApiError + Page)
    (messages_send : nat → nat → Z → jsstring → option ApiError)
    (compile : jsstring → TemplateFields → jsstring)
    (fuel : nat) (from_id : Z) (w : World) :
  ∃ r w' m evs,
    test_broadcast_command GROUP_ID ADMIN_IDS provider messages_send compile
      fuel from_id w = (r, w')
    ∧ trace w' = trace w ++ requested GROUP_ID 0 m ++ evs
    ∧ Forall (fun ev => is_quiet ev = true) evs
    ∧ calls w' = (calls w + m)%nat
    ∧ blocklist_json (disk w') = blocklist_json (disk w)
    ∧ allowlist_json (disk w') = allowlist_json (disk w).
Proof.
  unfold test_broadcast_command.
  destruct (isAdmin ADMIN_IDS from_id); cbn [negb].
  2:{ exists (Ret [Denied]), w, 0%nat, []. cbn. rewrite app_nil_r.
      repeat split; try done; lia. }
  destruct (gatherUserIds_keeps_lists provider GROUP_ID fuel w)
    as (m & rg & wg & Hg & Htr & Hcalls & Hbl & Hal & _).
  unfold bind at 1. unfold try_catch. unfold bind at 1. rewrite Hg.
  destruct rg as [users|e|].
  - destruct (filterUsers_frame users wg) as (filtered & w2 & Hf & Hs2).
    unfold bind at 1. rewrite Hf.
    unfold bind at 1. unfold lift.
    destruct (loadAllowlist w2) as [A w3] eqn:EA.
    pose proof (loadAllowlist_frame w2) as Hs3. rewrite EA in Hs3. cbn in Hs3.
    pose proof (same_but_cache_trans _ _ _ Hs2 Hs3) as Hs23.
    unfold bind at 1. unfold gets.
    destruct (broadcast_template_txt (disk w3)) as [text|].
    2:{ destruct Hs23 as (Hd & _ & Hc & _ & Ht).
        eexists _, w3, m, []. split; [reflexivity|].
        rewrite app_nil_r, Ht, Hc, Hd. done. }
    destruct (trim text) as [|c rest].
    { destruct Hs23 as (Hd & _ & Hc & _ & Ht).
      eexists _, w3, m, []. split; [reflexivity|].
      rewrite app_nil_r, Ht, Hc, Hd. done. }
    assert (∃ status w4,
      (if (0 <? length A)%nat then
         do allowed <- allowedUsers users;
         ret [TestingWith (length filtered) (Some (length allowed))
                (Some (length allowed - length filtered)%nat)]
       else
         ret (if (0 <? length users - length filtered)%nat
              then [TestingWith (length filtered) None
                      (Some (length users - length filtered)%nat)]
              else [])) w3
      = (Ret status, w4) ∧ same_but_cache w3 w4) as (status & w4 & Hstatus & Hs4).
    { destruct (0 <? length A)%nat.
      - destruct (allowedUsers_frame users w3) as (al & w4 & Hal' & Hs4).
        eexists _, w4. unfold bind. rewrite Hal'. by split.
      - eexists _, w3. split; [reflexivity|apply same_but_cache_refl]. }
    unfold bind at 1. rewrite Hstatus.
    destruct (broadcast_dry_summary messages_send compile (c :: rest) users w4)
      as (w5 & evs & Hb & Hd5 & Hc5 & Htr5 & Hq).
    unfold bind at 1. rewrite Hb.
    pose proof (same_but_cache_trans _ _ _ Hs23 Hs4) as (Hd & _ & Hc & _ & Ht).
    eexists _, w5, m, evs. split; [reflexivity|].
    split; [by rewrite Htr5, Ht, Htr, <- app_assoc|]. split; [done|].
    rewrite Hc5, Hc, Hd5, Hd. done.
  - eexists _, wg, m, []. split; [reflexivity|]. by rewrite app_nil_r.
  - eexists _, wg, m, []. split; [reflexivity|]. by rewrite app_nil_r.
Qed.

(** ** Who may use the commands *)

(** Somebody who is not in [ADMIN_IDS] gets 'Access denied.' from every
    command and nothing else happens: no file is read or written, no
    variable changes, no API call is made. *)
Theorem commands_refuse_strangers
    (Number : jsstring → JsNumber) (GROUP_ID : jsstring) (ADMIN_IDS : list Z)
    (provider : nat → jsstring → Z → Z → ApiError + Page)
    (messages_send : nat → nat → Z → jsstring → option ApiError)
    (compile : jsstring → TemplateFields → jsstring)
    (fuel : nat) (from_id : Z) (text : jsstring) (w : World) :
  from_id ∉ ADMIN_IDS →
  gather_ids_command GROUP_ID ADMIN_IDS provider fuel from_id w = (Ret [Denied], w)
  ∧ test_broadcast_command GROUP_ID ADMIN_IDS provider messages_send compile
      fuel from_id w = (Ret [Denied], w)
  ∧ broadcast_command GROUP_ID ADMIN_IDS provider messages_send compile
      fuel from_id w = (Ret tt, log [EvReply AccessDenied] w)
  ∧ block_user_command Number ADMIN_IDS from_id text w = (Ret Denied, w)
  ∧ unblock_user_command ADMIN_IDS from_id text w = (Ret Denied, w)
  ∧ show_blocklist_command ADMIN_IDS from_id w = (Ret Denied, w)
  ∧ clear_blocklist_command ADMIN_IDS from_id w = (Ret Denied, w)
  ∧ allow_user_command Number ADMIN_IDS from_id text w = (Ret Denied, w)
  ∧ unallow_user_command ADMIN_IDS from_id text w = (Ret Denied, w)
  ∧ show_allowlist_command ADMIN_IDS from_id w = (Ret Denied, w)
  ∧ clear_allowlist_command ADMIN_IDS from_id w = (Ret Denied, w).
Proof.
  intros Hno.
  assert (isAdmin ADMIN_IDS from_id = false) as Hadmin
    by (by apply bool_decide_eq_false).
  unfold gather_ids_command, test_broadcast_command, broadcast_command,
    block_user_command, unblock_user_command, show_blocklist_command,
    clear_blocklist_command, allow_user_command, unallow_user_command,
    show_allowlist_command, clear_allowlist_command.
  rewrite Hadmin. cbn [negb]. repeat split.
Qed.

(** ** Reading the argument of [/block_user] *)

Lemma split_on_without (sep : N) (s : jsstring) :
  sep ∉ s → split_on sep s = [s].
Proof.
  induction s as [|c s IH]; intros Hs; [done|].
  rewrite not_elem_of_cons in Hs. destruct Hs as [Hne Hs].
  cbn. rewrite (proj2 (N.eqb_neq c sep)) by congruence. by rewrite IH.
Qed.

Lemma split_on_first (sep : N) (pre rest : jsstring) :
  sep ∉ pre → split_on sep (pre ++ sep :: rest) = pre :: split_on sep rest.
Proof.
  induction pre as [|c pre IH]; intros Hs.
  - cbn. by rewrite N.eqb_refl.
  - rewrite not_elem_of_cons in Hs. destruct Hs as [Hne Hs].
    cbn. rewrite (proj2 (N.eqb_neq c sep)) by congruence. by rewrite IH.
Qed.

Lemma split_on_head (sep : N) (arg more : jsstring) :
  sep ∉ arg → more = [] ∨ (∃ t, more = sep :: t) →
  ∃ others, split_on sep (arg ++ more) = arg :: others.
Proof.
  intros Harg [-> | [t ->]].
  - rewrite app_nil_r, split_on_without by done. by eexists.
  - rewrite split_on_first by done. by eexists.
Qed.

Lemma addToBlocklist_returns (Number : jsstring → JsNumber) (userId : jsstring)
    (w : World) :
  (addToBlocklist Number userId w).1 ≠ OutOfFuel.
Proof.
  destruct (isValidUserId Number userId) eqn:Hv.
  - destruct (loadBlocklist w) as [l w1] eqn:El.
    rewrite (addToBlocklist_valid Number userId w w1 l Hv El).
    destruct (bool_decide _); [done|]. by destruct (writable _).
  - unfold addToBlocklist. by rewrite Hv.
Qed.

(** [/block_user] takes as the id the text between the first and the
    second space of the message and ignores what follows; a message
    without a space gets the usage line and changes nothing.  Whatever
    [addToBlocklist] does with the id, the handler answers: an exception
    becomes an 'Error: ...' reply. *)
Theorem block_user_reads_first_argument
    (Number : jsstring → JsNumber) (ADMIN_IDS : list Z) (from_id : Z)
    (text : jsstring) (w : World) :
  isAdmin ADMIN_IDS from_id = true →
  (32%N ∉ text →
     block_user_command Number ADMIN_IDS from_id text w = (Ret UsageBlockUser, w))
  ∧ (∀ cmd arg more,
       text = cmd ++ 32%N :: arg ++ more →
       32%N ∉ cmd → 32%N ∉ arg → more = [] ∨ (∃ t, more = 32%N :: t) →
       block_user_command Number ADMIN_IDS from_id text w
       = match addToBlocklist Number arg w with
         | (Ret true, w') => (Ret (AddedToBlocklist arg), w')
         | (Ret false, w') => (Ret (AlreadyInBlocklist arg), w')
         | (Throw e, w') => (Ret (ErrorReply e), w')
         | (OutOfFuel, w') => (OutOfFuel, w')
         end)
  ∧ ∃ answer w', block_user_command Number ADMIN_IDS from_id text w
                 = (Ret answer, w').
Proof.
  intros Hadmin. unfold block_user_command, command_args. rewrite Hadmin. cbn [negb].
  split; [|split].
  - intros Hno. by rewrite split_on_without.
  - intros cmd arg more -> Hcmd Harg Hmore.
    rewrite split_on_first by done. cbn [drop].
    destruct (split_on_head 32 arg more Harg Hmore) as [others ->].
    rewrite drop_0. unfold try_catch, bind, ret.
    by destruct (addToBlocklist Number arg w) as [[[]|e|] w'].
  - destruct (drop 1 (split_on 32 text)) as [|userId others]; [by eexists _, _|].
    unfold try_catch, bind, ret.
    pose proof (addToBlocklist_returns Number userId w) as Hr.
    destruct (addToBlocklist Number userId w) as [[[]|e|] w'];
      [by eexists _, _..|done].
Qed.

(** ** The list of admins at start-up *)

Lemma split_on_not_nil (sep : N) (s : jsstring) : split_on sep s ≠ [].
Proof.
  induction s as [|c s IH]; [done|]. cbn.
  destruct (c =? sep)%N; [done|]. by destruct (split_on sep s).
Qed.

(** [split] never returns an empty array, so the test
    [ADMIN_IDS.length === 0] never holds: the process is stopped exactly
    when every entry is [NaN].  As [Number('')] is 0, a missing or empty
    [ADMIN_IDS] gives the list [[0]] and passes the check. *)
Theorem admin_ids_check (Number : jsstring → JsNumber) (env : option jsstring) :
  (1 ≤ length (parse_ADMIN_IDS Number env))%nat
  ∧ (admin_ids_rejected (parse_ADMIN_IDS Number env) = true
     ↔ ∀ n, n ∈ parse_ADMIN_IDS Number env → n = NaN)
  ∧ (Number [] = Finite 0 → env = None ∨ env = Some [] →
     parse_ADMIN_IDS Number env = [Finite 0]
     ∧ admin_ids_rejected (parse_ADMIN_IDS Number env) = false).
Proof.
  assert (1 ≤ length (parse_ADMIN_IDS Number env))%nat as Hlen.
  { unfold parse_ADMIN_IDS. rewrite length_fmap.
    pose proof (split_on_not_nil 44 match env with Some (c :: s) => c :: s | _ => [] end).
    destruct (split_on 44 _); [done|cbn; lia]. }
  split; [done|]. split.
  - unfold admin_ids_rejected.
    rewrite (proj2 (Nat.eqb_neq _ 0%nat)) by lia. cbn [orb].
    rewrite forallb_forall. split.
    + intros H n Hn. apply list_elem_of_In in Hn. apply H in Hn. by destruct n.
    + intros H n Hn. apply list_elem_of_In in Hn. by rewrite (H n Hn).
  - intros H0 Henv.
    assert (parse_ADMIN_IDS Number env = [Finite 0]) as ->.
    { unfold parse_ADMIN_IDS. destruct Henv as [-> | ->]; cbn; by rewrite H0. }
    done.
Qed.

(** ** The version with the permission check: counters and sends *)

Section Checked.

Variable is_allowed : nat -> Z -> ApiError + Z.
Variable messages_send : nat -> nat -> Z -> jsstring -> option ApiError.







End Checked.




(** ** Worked instances of the further properties *)

(** Closes a negated decidable goal on concrete data by evaluating the
    decision. *)
Ltac refute_by_computation :=
  match goal with
  | |- ¬ ?P => apply (bool_decide_eq_false_1 P); vm_compute; reflexivity
  end.

Lemma save_then_load_witness :
  ∃ w', saveBlocklist [js "7"] reference_world = (Ret tt, w')
        ∧ loadBlocklist w' = ([js "7"], w').
Proof.
  destruct (save_then_load [js "7"] reference_world eq_refl)
    as [(w' & Hsave & Hload & _) _].
  exists w'. split; assumption.
Defined.

Lemma add_then_remove_restores_witness :
  ∃ w2 w3,
    addToBlocklist Number_of_digits (js "7") reference_world = (Ret true, w2)
    ∧ removeFromBlocklist (js "7") w2 = (Ret true, w3)
    ∧ blocklist_json (disk w3) = Present 1 (ArrayOf [js "5"])
    ∧ loadBlocklist w3 = ([js "5"], w3).
Proof.
  destruct (add_then_remove_restores Number_of_digits (js "7") reference_world
              eq_refl eq_refl) as [H _].
  apply (H [js "5"] _ eq_refl).
  refute_by_computation.
Defined.

Lemma block_takes_effect_witness :
  ∃ w2 before,
    addToBlocklist Number_of_digits (js "7") reference_world = (Ret true, w2)
    ∧ (filterUsers (members_upto 25) reference_world).1 = Ret before
    ∧ (filterUsers (members_upto 25) w2).1
      = Ret (List.filter
               (fun m => negb (bool_decide (String_of_number (id m) = js "7")))
               before).
Proof.
  apply (block_takes_effect Number_of_digits (js "7") reference_world
           (members_upto 25) eq_refl eq_refl).
  refute_by_computation.
Defined.

Lemma failed_save_still_blocks_witness :
  ∃ w2 before,
    addToBlocklist Number_of_digits (js "7") read_only_world
    = (Throw FailedToSaveBlocklist, w2)
    ∧ blocklist_json (disk w2) = Present 1 (ArrayOf [js "5"])
    ∧ (loadBlocklist w2).1 = (loadBlocklist read_only_world).1 ++ [js "7"]
    ∧ (filterUsers (members_upto 25) read_only_world).1 = Ret before
    ∧ (filterUsers (members_upto 25) w2).1
      = Ret (List.filter
               (fun m => negb (bool_decide (String_of_number (id m) = js "7")))
               before).
Proof.
  apply (failed_save_still_blocks Number_of_digits (js "7") read_only_world
           (members_upto 25) 1 [js "5"] eq_refl eq_refl eq_refl).
  refute_by_computation.
Defined.

Lemma first_allowed_id_narrows_witness :
  ∃ w2 before,
    addToAllowlist Number_of_digits (js "7") reference_world = (Ret true, w2)
    ∧ (filterUsers (members_upto 25) reference_world).1 = Ret before
    ∧ (filterUsers (members_upto 25) w2).1
      = Ret (List.filter
               (fun m => bool_decide (String_of_number (id m) = js "7"))
               before).
Proof.
  apply (first_allowed_id_narrows Number_of_digits (js "7") reference_world
           (members_upto 25) eq_refl eq_refl eq_refl).
Defined.

Lemma clear_commands_witness :
  ∃ w', clear_blocklist_command [42%Z] 42 reference_world = (Ret BlocklistCleared, w')
        ∧ loadBlocklist w' = ([], w').
Proof.
  destruct (clear_commands [42%Z] 42 reference_world (members_upto 25) eq_refl)
    as [H _].
  destruct (H eq_refl) as [(w' & Hclear & Hload & _) _].
  exists w'. split; assumption.
Defined.

Lemma filterUsers_agrees_with_uncached_witness :
  (filterUsers (members_upto 25) reference_world).1
  = Ret (Uncached.filterUsers (disk reference_world) (members_upto 25)).
Proof.
  apply (filterUsers_agrees_with_uncached (members_upto 25) reference_world
           eq_refl eq_refl).
Defined.

Lemma generateRandomId_decodes_witness :
  (generateRandomId 7 1700000000123 / 100000 = 7)%Z
  ∧ (generateRandomId 7 1700000000123 mod 100000 = 1700000000123 mod 100000)%Z.
Proof.
  destruct (generateRandomId_decodes 7 1700000000123) as (Hq & Hr & _).
  - lia.
  - split; assumption.
Defined.


Lemma commands_refuse_strangers_witness :
  block_user_command Number_of_digits [42%Z] 7 (js "/block_user 7") reference_world
  = (Ret Denied, reference_world)
  ∧ clear_blocklist_command [42%Z] 7 reference_world = (Ret Denied, reference_world).
Proof.
  destruct (commands_refuse_strangers Number_of_digits (js "1") [42%Z]
              one_page_provider send_ok plain_template 1 7
              (js "/block_user 7") reference_world)
    as (_ & _ & _ & Hblock & _ & _ & Hclear & _).
  - refute_by_computation.
  - split; assumption.
Defined.

Lemma block_user_reads_first_argument_witness :
  ∃ w', block_user_command Number_of_digits [42%Z] 42
          (js "/block_user 7 please") reference_world
        = (Ret (AddedToBlocklist (js "7")), w').
Proof.
  destruct (block_user_reads_first_argument Number_of_digits [42%Z] 42
              (js "/block_user 7 please") reference_world eq_refl)
    as (_ & H & _).
  eexists.
  rewrite (H (js "/block_user") (js "7") (js " please") eq_refl).
  - vm_compute. reflexivity.
  - refute_by_computation.
  - refute_by_computation.
  - right. eexists. reflexivity.
Defined.
